(** * drillmaster: service registry and run coordinator

    A shallow embedding of [drillmaster/services.py]: the loading and
    validation of service definitions ([ServiceCollection.load_definitions],
    [ServiceCollection.check_circular_dependencies]) and the per-run
    coordination of service agents ([RunningContext], [start_next],
    [service_failed], [start_all], [start_services]). *)

From stdpp Require Import base list strings gmap.
From Stdlib Require Import Lia.

Open Scope string_scope.
Open Scope list_scope.
Open Scope nat_scope.

(** ** Python dictionaries

    A [dict] keeps its items in insertion order; assigning to a key that is
    already present replaces the value and keeps the position.  The order is
    what [items()], [values()] and the iteration of a [Counter] follow. *)
Module PyDict.
Section dict.
Context {V : Type}.

Definition t := list (string * V).

Definition keys (d : t) : list string := d.*1.
Definition values (d : t) : list V := d.*2.

Fixpoint get (k : string) (d : t) : option V :=
  match d with
  | [] => None
  | (k', v) :: d' => if decide (k = k') then Some v else get k d'
  end.

Fixpoint set (k : string) (v : V) (d : t) : t :=
  match d with
  | [] => [(k, v)]
  | (k', v') :: d' =>
      if decide (k = k') then (k, v) :: d' else (k', v') :: set k v d'
  end.

End dict.
Global Arguments t : clear implicits.
End PyDict.

Abbreviation dict := PyDict.t.

(** ** Service definitions *)

(** The class attributes of a [Service] subclass that the collection reads.
    Before [load_definitions] has resolved them, [dependencies] are service
    names; afterwards they are references to the class objects registered in
    [all_by_name].  The registry holds exactly one class object under each
    key, stored under its own [name], so such a reference is represented by
    the key of the object it points to. *)
Record Service := {
  name : string;
  image : string;
  dependencies : list string;
}.

(** ** Exceptions *)

(** [ServiceLoadError] is raised with four different messages; the other
    constructors are the built-in exceptions that the modelled code can
    raise. *)
Inductive exn :=
| NoServicesDefined
    (* ServiceLoadError("No services defined") *)
| ExcludedDependency (excluded dependent : string)
    (* ServiceLoadError("{} is to be excluded, but {} depends on it") *)
| RepeatedServiceName (multiples : list string)
    (* ServiceLoadError("Repeated service names: {}") *)
| CircularDependency
    (* ServiceLoadError("Circular dependency detected") *)
| KeyError (key : string)
| RecursionError
| AttributeError
| TypeError.

Definition is_ServiceLoadError (e : exn) : bool :=
  match e with
  | NoServicesDefined | ExcludedDependency _ _
  | RepeatedServiceName _ | CircularDependency => true
  | KeyError _ | RecursionError | AttributeError | TypeError => false
  end.

Inductive result (A : Type) :=
| Ok (a : A)
| Raise (e : exn).
Global Arguments Ok {A} a.
Global Arguments Raise {A} e.

(** ** [ServiceCollection.load_definitions] *)

(** [name_counter[k] += 1] on a [Counter]: a missing key counts as zero. *)
Definition counter_incr (k : string) (c : dict nat) : dict nat :=
  PyDict.set k (default 0 (PyDict.get k c) + 1) c.

(** The first loop of [load_definitions].  The state it threads is the
    registry [self.all_by_name] and the local [name_counter]; the registry is
    returned in every case, as the exception leaves it as it was when raised. *)
Fixpoint scan_services (exclude : list string) (services : list Service)
    (all_by_name : dict Service) (name_counter : dict nat)
    : dict Service * result (dict nat) :=
  match services with
  | [] => (all_by_name, Ok name_counter)
  | service :: services =>
      if decide (name service ∉ exclude) then
        let all_by_name := PyDict.set (name service) service all_by_name in
        let excluded_deps :=
          filter (λ dep, dep ∈ exclude) (dependencies service) in
        match excluded_deps with
        | dep :: _ =>
            (all_by_name, Raise (ExcludedDependency dep (name service)))
        | [] =>
            scan_services exclude services all_by_name
              (counter_incr (name service) name_counter)
        end
      else
        scan_services exclude services all_by_name
          (counter_incr (name service) name_counter)
  end.

(** [[name for name, count in name_counter.items() if count > 1]] *)
Definition multiples (name_counter : dict nat) : list string :=
  (filter (λ item, 1 < item.2) name_counter).*1.

(** The list comprehension [[self.all_by_name[dependency] for dependency in
    dependencies]]: the first missing key raises [KeyError]. *)
Fixpoint resolve (all_by_name : dict Service) (deps : list string)
    : result (list string) :=
  match deps with
  | [] => Ok []
  | dependency :: deps =>
      match PyDict.get dependency all_by_name with
      | None => Raise (KeyError dependency)
      | Some _ =>
          match resolve all_by_name deps with
          | Ok refs => Ok (dependency :: refs)
          | Raise e => Raise e
          end
      end
  end.

(** The second loop of [load_definitions], over [self.all_by_name.values()]
    ([todo] is the registry's items when the loop starts; the loop changes no
    key).  The class object met under [key] gets its resolved dependency list
    assigned, in the registry where it lives. *)
Fixpoint resolve_all (todo : list (string * Service))
    (all_by_name : dict Service) : dict Service * result unit :=
  match todo with
  | [] => (all_by_name, Ok ())
  | (key, service) :: todo =>
      match resolve all_by_name (dependencies service) with
      | Raise e => (all_by_name, Raise e)
      | Ok refs =>
          resolve_all todo
            (PyDict.set key
               {| name := name service; image := image service;
                  dependencies := refs |} all_by_name)
      end
  end.

(** ** [ServiceCollection.check_circular_dependencies] *)

(** Following a reference to a class object of the registry.  After a
    successful load every reference is a key of the registry (lemma
    [load_closed] below); the default only makes the function total. *)
Definition deref (all_by_name : dict Service) (ref : string) : Service :=
  default {| name := ref; image := ""; dependencies := [] |}
          (PyDict.get ref all_by_name).

Section walk.
Variable all_by_name : dict Service.
(** [start = service.name], the origin of the walk. *)
Variable start : string.

(** The closure [go_up_dependencies].  [count] is the [nonlocal] counter,
    threaded through the calls and returned with the outcome.  [fuel]
    bounds the depth of the recursion; running out of it is Python's
    [RecursionError]. *)
Fixpoint go_up_dependencies (fuel : nat) (checked : Service) (count : nat)
    : nat * result unit :=
  match fuel with
  | 0 => (count, Raise RecursionError)
  | S fuel =>
      (fix for_dependency (deps : list string) (count : nat)
           : nat * result unit :=
         match deps with
         | [] => (count, Ok ())
         | ref :: deps =>
             let dependency := deref all_by_name ref in
             if decide (name dependency = start) then
               (count, Raise CircularDependency)
             else if decide (count = length all_by_name) then
               (count, Ok ())
             else
               match go_up_dependencies fuel dependency count with
               | (count, Ok _) => for_dependency deps count
               | raised => raised
               end
         end) (dependencies checked) (count + 1)
  end.
End walk.

(** The loop body of [go_up_dependencies], named so that it can be reasoned
    about apart from the recursion. *)
Fixpoint for_dependency (all_by_name : dict Service) (start : string)
    (fuel : nat) (deps : list string) (count : nat) : nat * result unit :=
  match deps with
  | [] => (count, Ok ())
  | ref :: deps =>
      let dependency := deref all_by_name ref in
      if decide (name dependency = start) then
        (count, Raise CircularDependency)
      else if decide (count = length all_by_name) then
        (count, Ok ())
      else
        match go_up_dependencies all_by_name start fuel dependency count with
        | (count, Ok _) => for_dependency all_by_name start fuel deps count
        | raised => raised
        end
  end.

(** The outer loop of [check_circular_dependencies] over [with_dependencies].
    The recursion is given a depth of [len(self.all_by_name)]. *)
Fixpoint check_from (all_by_name : dict Service)
    (with_dependencies : list Service) : result unit :=
  match with_dependencies with
  | [] => Ok ()
  | service :: rest =>
      match go_up_dependencies all_by_name (name service)
              (length all_by_name) service 0 with
      | (_, Ok _) => check_from all_by_name rest
      | (_, Raise e) => Raise e
      end
  end.

Definition check_circular_dependencies (all_by_name : dict Service)
    : result unit :=
  let with_dependencies :=
    filter (λ x, dependencies x ≠ []) (PyDict.values all_by_name) in
  check_from all_by_name with_dependencies.

(** [load_definitions]: [services] is what
    [self._base_class.__subclasses__()] returns, [exclude] the exclusion list
    ([None] is the empty list), [all_by_name] the registry of [self] on
    entry.  The registry is returned with the outcome. *)
Definition load_definitions (services : list Service) (exclude : list string)
    (all_by_name : dict Service) : dict Service * result unit :=
  match services with
  | [] => (all_by_name, Raise NoServicesDefined)
  | _ :: _ =>
      match scan_services exclude services all_by_name [] with
      | (all_by_name, Raise e) => (all_by_name, Raise e)
      | (all_by_name, Ok name_counter) =>
          match multiples name_counter with
          | (_ :: _) as names => (all_by_name, Raise (RepeatedServiceName names))
          | [] =>
              match resolve_all all_by_name all_by_name with
              | (all_by_name, Raise e) => (all_by_name, Raise e)
              | (all_by_name, Ok _) =>
                  (all_by_name, check_circular_dependencies all_by_name)
              end
          end
      end
  end.

(** A fresh [ServiceCollection()] has an empty registry. *)
Definition load (services : list Service) (exclude : list string)
    : dict Service * result unit :=
  load_definitions services exclude [].

(** ** Service agents *)

(** What [RunningContext] and [ServiceCollection] use of the class
    [ServiceAgent] of [drillmaster/service_agent.py]: the constructor, the
    property [can_start] and the method [process_service_started], which
    changes the agent it is called on and nothing else.  [agent.start()]
    launches the agent's thread; it is recorded in the collection's trace
    of launches. *)
Class ServiceAgent (A : Type) := {
  new_agent : Service → A;
  can_start : A → bool;
  process_service_started : string → A → A;
}.

(** Modelled from the spec: [drillmaster/service_agent.py], the module of the
    class [ServiceAgent], is missing.  The agent wraps one service definition;
    "canStart: true iff all dependencies are in Done"; on the notification
    that a service has completed "the agent marks that dependency as
    satisfied".  The dependencies not yet satisfied are kept by name. *)
Record Agent := {
  service : Service;
  open_dependencies : list string;
}.

Global Instance Agent_ServiceAgent : ServiceAgent Agent := {|
  new_agent s := {| service := s; open_dependencies := dependencies s |};
  can_start a := bool_decide (open_dependencies a = []);
  process_service_started started a :=
    {| service := service a;
       open_dependencies :=
         filter (λ dep, dep ≠ started) (open_dependencies a) |};
|}.

(** ** [RunningContext] and the run of a [ServiceCollection] *)

(** The value a Python call returns, as far as [start_services] looks at it. *)
Inductive pyvalue :=
| PyNone
| PyList (items : list string).

(** [sep.join(v)] *)
Definition join (sep : string) (v : pyvalue) : result string :=
  match v with
  | PyNone => Raise TypeError
  | PyList items => Ok (String.concat sep items)
  end.

(** What an agent's thread tells the collection when it ends:
    [collection.start_next(name)] or [collection.service_failed(name)]. *)
Inductive report :=
| Started (name : string)
| Failed (name : string).

Section coordinator.
Context {A : Type} `{ServiceAgent A}.

(** The agents of a run are objects shared by the dictionaries
    [service_agents] and [waiting_agents] and the list
    [without_dependencies].  [agents] is the store of these objects,
    addressed by the service name they were created for; a dictionary of
    agents maps each of its keys to the object at that address and is
    given by its keys, which are distinct, in insertion order; the list is
    given by its addresses. *)
Record RunningContext := {
  agents : gmap string A;
  service_agents : list string;
  without_dependencies : list string;
  waiting_agents : list string;
}.

(** [agent.can_start] for the agent at address [ref]. *)
Definition can_start_at (store : gmap string A) (ref : string) : bool :=
  match store !! ref with
  | Some agent => can_start agent
  | None => false
  end.

(** [{name: ServiceAgent(service, ...) for name, service in
    services_by_name.items()}] *)
Definition create_agents (services_by_name : dict Service) : dict A :=
  foldl (λ d item, PyDict.set item.1 (new_agent item.2) d)
        [] services_by_name.

(** [RunningContext.__init__] *)
Definition new_context (services_by_name : dict Service) : RunningContext :=
  let created := create_agents services_by_name in
  {| agents := list_to_map created;
     service_agents := PyDict.keys created;
     without_dependencies :=
       PyDict.keys (filter (λ item, can_start item.2 = true) created);
     waiting_agents :=
       PyDict.keys (filter (λ item, can_start item.2 ≠ true) created) |}.

(** The property [done]: [not bool(self.waiting_agents)]. *)
Definition done (self : RunningContext) : bool :=
  bool_decide (waiting_agents self = []).

(** [d.pop(key)] on a dictionary of agents, for a key that it has. *)
Definition pop (key : string) (d : list string) : list string :=
  filter (λ k, k ≠ key) d.

(** The loop of [service_started] over [self.waiting_agents.items()]. *)
Fixpoint notify (started_service : string) (waiting : list string)
    (store : gmap string A) (startable : list string)
    : gmap string A * list string :=
  match waiting with
  | [] => (store, startable)
  | name :: waiting =>
      let store := alter (process_service_started started_service)
                         name store in
      notify started_service waiting store
        (if can_start_at store name then startable ++ [name]
         else startable)
  end.

(** [RunningContext.service_started].  The agents returned are given by
    their addresses. *)
Definition service_started (started_service : string)
    (self : RunningContext) : result (RunningContext * list string) :=
  if decide (started_service ∈ service_agents self) then
    let '(store, startable) :=
      notify started_service (waiting_agents self) (agents self) [] in
    Ok ({| agents := store;
           service_agents := pop started_service (service_agents self);
           without_dependencies := without_dependencies self;
           waiting_agents :=
             foldl (λ d name, pop name d) (waiting_agents self) startable |},
        startable)
  else Raise (KeyError started_service).

(** The attributes of a [ServiceCollection], and [launched]: the agents on
    which [start()] has been called so far, oldest first. *)
Record ServiceCollection := {
  all_by_name : dict Service;
  running_context : option RunningContext;
  failed : bool;
  launched : list string;
}.

(** [ServiceCollection.__init__], with the registry that
    [load_definitions] has left. *)
Definition loaded (registry : dict Service) : ServiceCollection :=
  {| all_by_name := registry; running_context := None;
     failed := false; launched := [] |}.

(** [ServiceCollection.start_next], the whole of it inside
    [service_pop_lock]. *)
Definition start_next (started_service : string)
    (self : ServiceCollection) : result ServiceCollection :=
  match running_context self with
  | None => Raise AttributeError
  | Some context =>
      match service_started started_service context with
      | Raise e => Raise e
      | Ok (context, new_startables) =>
          Ok {| all_by_name := all_by_name self;
                running_context := Some context;
                failed := failed self;
                launched := launched self ++ new_startables |}
      end
  end.

(** [ServiceCollection.service_failed] *)
Definition service_failed (failed_service : string)
    (self : ServiceCollection) : ServiceCollection :=
  {| all_by_name := all_by_name self;
     running_context := running_context self;
     failed := true;
     launched := launched self |}.

(** One report of an agent thread reaching the collection.  An exception
    raised by [start_next] ends that thread; [service_started] raises
    before it changes anything, so the collection is as it was. *)
Definition deliver (self : ServiceCollection) (r : report)
    : ServiceCollection :=
  match r with
  | Started name =>
      match start_next name self with
      | Ok self => self
      | Raise _ => self
      end
  | Failed name => service_failed name self
  end.

Definition run (reports : list report) (self : ServiceCollection)
    : ServiceCollection :=
  foldl deliver self reports.

(** The first two statements of [start_all]: the context is built and the
    agents without dependencies are started. *)
Definition start_without_dependencies (self : ServiceCollection)
    : ServiceCollection :=
  let context := new_context (all_by_name self) in
  {| all_by_name := all_by_name self;
     running_context := Some context;
     failed := failed self;
     launched := launched self ++ without_dependencies context |}.

(** [self.running_context.done or self.failed] *)
Definition done_or_failed (self : ServiceCollection) : bool :=
  match running_context self with
  | Some context => done context || failed self
  | None => failed self
  end.

(** The [while] loop of [start_all].  [schedule] lists, for each
    [time.sleep(0.05)] of the loop, the reports that reach the collection
    during that sleep.  [None]: the loop is still polling when the
    schedule ends. *)
Fixpoint wait (schedule : list (list report)) (self : ServiceCollection)
    : option ServiceCollection :=
  if done_or_failed self then Some self
  else
    match schedule with
    | [] => None
    | reports :: schedule => wait schedule (run reports self)
    end.

(** [ServiceCollection.start_all].  The body has no [return] statement: the
    call evaluates to [None]. *)
Definition start_all (schedule : list (list report))
    (self : ServiceCollection) : option (ServiceCollection * pyvalue) :=
  match wait schedule (start_without_dependencies self) with
  | Some self => Some (self, PyNone)
  | None => None
  end.

(** [start_services]; the calls to the docker client, which creates the
    network, are left out.  The result is the line logged at the end. *)
Definition start_services (services : list Service)
    (exclude : list string) (schedule : list (list report))
    : option (result string) :=
  match load_definitions services exclude [] with
  | (_, Raise e) => Some (Raise e)
  | (registry, Ok _) =>
      match start_all schedule (loaded registry) with
      | None => None
      | Some (_, service_names) => Some (join "," service_names)
      end
  end.
End coordinator.
Global Arguments RunningContext : clear implicits.
Global Arguments ServiceCollection : clear implicits.

Module Examples.
Definition svc (n : string) (deps : list string) : Service :=
  {| name := n; image := "img/" ++ n; dependencies := deps |}.

(** A two-cycle [A -> B -> A] in which both members first depend on a
    service [X] without dependencies. *)
Definition leaf_cycle : list Service :=
  [ svc "A" ["X"; "B"]; svc "B" ["X"; "A"]; svc "X" [] ].

(** The same two-cycle, in which both members first depend on the top [X] of
    a diamond [X -> P -> R], [X -> Q -> R]. *)
Definition padded_cycle : list Service :=
  [ svc "A" ["X"; "B"]; svc "B" ["X"; "A"];
    svc "X" ["P"; "Q"]; svc "P" ["R"]; svc "Q" ["R"]; svc "R" [] ].

(** The chain of the specification: [web] needs [api], [api] needs [db]. *)
Definition chain : list Service :=
  [ svc "db" []; svc "api" ["db"]; svc "web" ["api"] ].

(** Two independent services and a dependent of the second. *)
Definition siblings : list Service :=
  [ svc "A" []; svc "B" []; svc "C" ["B"] ].

(** The collection of [start_services] when [start_all] has started the
    agents without dependencies. *)
Definition started (services : list Service) : ServiceCollection Agent :=
  start_without_dependencies (loaded (load services []).1).
End Examples.

(** ** Notions used in the statements *)

(** No definition that is kept depends on an excluded name. *)
Definition no_excluded_dependency (exclude : list string)
    (services : list Service) : Prop :=
  ∀ s d, s ∈ services → name s ∉ exclude → d ∈ dependencies s → d ∉ exclude.

(** What the scan does to the registry and to the counter when it raises
    nothing. *)
Definition register (exclude : list string) (all_by_name : dict Service)
    (s : Service) : dict Service :=
  if decide (name s ∉ exclude) then PyDict.set (name s) s all_by_name
  else all_by_name.

Definition count_names (name_counter : dict nat) (services : list Service)
    : dict nat :=
  foldl (λ c s, counter_incr (name s) c) name_counter services.

(** How often [k] names one of [services]. *)
Definition occurrences (k : string) (services : list Service) : nat :=
  length (filter (λ s, name s = k) services).

(** The outcome [r] of a walk entered with counter [count]: the depth was
    enough, and the counter has not passed the number of definitions. *)
Definition within_budget (all_by_name : dict Service) (count : nat)
    (r : nat * result unit) : Prop :=
  r.2 ≠ Raise RecursionError ∧ count ≤ r.1 ≤ length all_by_name.

(** [a] depends on [b] in the registry; the registry has a cycle. *)
Definition depends_on (all_by_name : dict Service) (a b : string) : Prop :=
  ∃ s, PyDict.get a all_by_name = Some s ∧ b ∈ dependencies s.

Definition cyclic (all_by_name : dict Service) : Prop :=
  ∃ a, tc (depends_on all_by_name) a a.

Section coordinator_notions.
Context {A : Type} `{ServiceAgent A}.
Implicit Types (self : ServiceCollection A).

(** The waiting agents of a collection; none before [start_all]. *)
Definition waiting_of self : list string :=
  match running_context self with
  | Some context => waiting_agents context
  | None => []
  end.

(** An agent is launched or waiting, never both, and never twice either. *)
Definition launch_invariant self : Prop :=
  NoDup (launched self ++ waiting_of self).

(** Two collections that differ by the flag [failed] at most, the first
    having failed. *)
Definition same_but_failed self1 self2 : Prop :=
  all_by_name self1 = all_by_name self2 ∧
  running_context self1 = running_context self2 ∧
  launched self1 = launched self2 ∧
  failed self1 = true.
End coordinator_notions.

(** ** Further notions *)

(** The registry of the definitions that are not excluded, each under its
    own name, in the order of declaration. *)
Definition kept (exclude : list string) (services : list Service)
    : dict Service :=
  (λ s, (name s, s)) <$> filter (λ s, name s ∉ exclude) services.




(** [ServiceCollection.__len__] *)
Definition __len__ {A : Type} (self : ServiceCollection A) : nat :=
  length (all_by_name self).

(** The store of agents of a collection; empty before [start_all]. *)
Definition store_of {A : Type} (self : ServiceCollection A)
    : gmap string A :=
  match running_context self with
  | Some context => agents context
  | None => ∅
  end.


(** What holds of the agents throughout a run: none is launched twice or
    launched and waiting, the launched ones can start and the waiting ones
    cannot. *)
Definition start_invariant {A : Type} `{ServiceAgent A}
    (self : ServiceCollection A) : Prop :=
  launch_invariant self ∧
  (∀ n, n ∈ launched self → can_start_at (store_of self) n = true) ∧
  (∀ n, n ∈ waiting_of self → can_start_at (store_of self) n ≠ true).

(** ** [ServiceMeta] *)





(** * Facts *)

(** ** Dictionaries *)
Module PyDictFacts.
Import PyDict.
Section facts.
Context {V : Type}.
Implicit Types (d : dict V) (k : string) (v : V).

Lemma get_set_eq k v d : get k (set k v d) = Some v.
Proof.
  induction d as [|[k' v'] d IH]; simpl.
  - by rewrite decide_True.
  - destruct (decide (k = k')) as [->|Hne]; simpl.
    + by rewrite decide_True.
    + by rewrite decide_False.
Qed.

Lemma get_set_ne k k' v d : k ≠ k' → get k' (set k v d) = get k' d.
Proof.
  intros Hne. induction d as [|[k0 v0] d IH]; simpl.
  - by rewrite decide_False.
  - destruct (decide (k = k0)) as [->|Hne0]; simpl.
    + by rewrite !decide_False.
    + by rewrite IH.
Qed.

Lemma get_Some_keys k d : is_Some (get k d) ↔ k ∈ keys d.
Proof.
  unfold keys. induction d as [|[k' v'] d IH]; simpl.
  - split; [by intros [? ?]|by intros ?%elem_of_nil].
  - destruct (decide (k = k')) as [->|Hne].
    + split; [intros _; left|by eauto].
    + rewrite IH. split; [by right|].
      intros [?|?]%elem_of_cons; [done|done].
Qed.

Lemma get_None_keys k d : get k d = None ↔ k ∉ keys d.
Proof. rewrite <- get_Some_keys, eq_None_not_Some. done. Qed.


Lemma keys_cons k v d : keys ((k, v) :: d) = k :: keys d.
Proof. reflexivity. Qed.

Lemma keys_set k v d :
  keys (set k v d) = if decide (k ∈ keys d) then keys d else keys d ++ [k].
Proof.
  induction d as [|[k' v'] d IH]; [done|].
  cbn [set]. destruct (decide (k = k')) as [->|Hne]; rewrite !keys_cons.
  - rewrite decide_True; [done|left].
  - rewrite IH. destruct (decide (k ∈ keys d)) as [Hin|Hin].
    + rewrite decide_True; [done|by right].
    + rewrite decide_False; [done|].
      intros [?|?]%elem_of_cons; done.
Qed.

Lemma elem_of_keys_set k k' v d :
  k' ∈ keys (set k v d) ↔ k' = k ∨ k' ∈ keys d.
Proof.
  rewrite keys_set. case_decide.
  - split; [by right|]. intros [->|?]; done.
  - rewrite elem_of_app, list_elem_of_singleton. tauto.
Qed.

Lemma NoDup_keys_set k v d : NoDup (keys d) → NoDup (keys (set k v d)).
Proof.
  intros Hnd. rewrite keys_set. case_decide; [done|].
  apply NoDup_app. split_and!; [done| |apply NoDup_singleton].
  intros x Hx ->%list_elem_of_singleton. done.
Qed.

Lemma length_set_pos k v d : 0 < length (set k v d).
Proof. destruct d as [|[k' v'] d]; simpl; [lia|]. case_decide; simpl; lia. Qed.

Lemma set_fresh k v d : k ∉ keys d → set k v d = d ++ [(k, v)].
Proof.
  induction d as [|[k' v'] d IH]; [done|].
  rewrite keys_cons. intros Hk. cbn [set].
  rewrite decide_False; [|intros ->; apply Hk; left].
  rewrite IH; [done|]. intros ?; apply Hk; by right.
Qed.

Lemma keys_app d1 d2 : keys (d1 ++ d2) = keys d1 ++ keys d2.
Proof. apply fmap_app. Qed.

Lemma get_elem_of k v d : get k d = Some v → (k, v) ∈ d.
Proof.
  induction d as [|[k' v'] d IH]; simpl; [done|].
  destruct (decide (k = k')) as [->|]; [intros [= ->]; left|right; auto].
Qed.

Lemma elem_of_get k v d : NoDup (keys d) → (k, v) ∈ d → get k d = Some v.
Proof.
  induction d as [|[k' v'] d IH]; [by intros _ ?%elem_of_nil|].
  rewrite keys_cons, NoDup_cons. intros [Hk Hnd] Hin. simpl.
  apply elem_of_cons in Hin as [[= -> ->]|Hin].
  - by rewrite decide_True.
  - rewrite decide_False; [auto|]. intros ->. apply Hk.
    unfold keys. apply list_elem_of_fmap. by exists (k', v).
Qed.
Lemma set_same k v d : get k d = Some v → set k v d = d.
Proof.
  induction d as [|[k' v'] d IH]; simpl; [done|].
  destruct (decide (k = k')) as [->|Hne]; [by intros [= ->]|].
  intros Hget. by rewrite IH.
Qed.
End facts.
End PyDictFacts.
Import PyDictFacts.

(** ** The scan of the definitions *)

Section scan.
Variable exclude : list string.

Lemma excluded_deps_nil (s : Service) :
  filter (λ dep, dep ∈ exclude) (dependencies s) = [] ↔
  ∀ d, d ∈ dependencies s → d ∉ exclude.
Proof.
  split.
  - intros Hnil d Hd Hex.
    eapply (filter_nil_not_elem_of (λ dep, dep ∈ exclude));
      [exact Hnil|exact Hex|exact Hd].
  - intros Hall. induction (dependencies s) as [|d ds IH]; [done|].
    rewrite filter_cons_False; [|apply Hall; left].
    apply IH. intros d' Hd'. apply Hall. by right.
Qed.

Lemma scan_services_raises services reg cnt s d :
  s ∈ services → name s ∉ exclude → d ∈ dependencies s → d ∈ exclude →
  ∃ reg' dep s',
    (scan_services exclude services reg cnt
      = (reg', Raise (ExcludedDependency dep (name s')))) ∧
    s' ∈ services ∧ (name s' ∉ exclude) ∧
    dep ∈ dependencies s' ∧ dep ∈ exclude.
Proof.
  intros Hs Hname Hd Hex. revert reg cnt.
  induction services as [|s0 services IH]; intros reg cnt.
  { by apply elem_of_nil in Hs. }
  cbn [scan_services].
  destruct (decide (name s0 ∉ exclude)) as [Hkept|Hdropped].
  - destruct (filter _ (dependencies s0)) as [|dep deps] eqn:Hfilter.
    + pose proof (proj1 (excluded_deps_nil s0) Hfilter) as Hnone.
      apply elem_of_cons in Hs as [->|Hs]; [by destruct (Hnone d)|].
      destruct (IH Hs (PyDict.set (name s0) s0 reg)
                  (counter_incr (name s0) cnt))
        as (reg' & dep & s' & -> & ? & ? & ? & ?).
      exists reg', dep, s'. split_and!; try done. by right.
    + assert (dep ∈ filter (λ dep, dep ∈ exclude) (dependencies s0))
        as [? ?]%list_elem_of_filter by (rewrite Hfilter; left).
      exists (PyDict.set (name s0) s0 reg), dep, s0.
      split_and!; try done. left.
  - apply elem_of_cons in Hs as [->|Hs]; [done|].
    destruct (IH Hs reg (counter_incr (name s0) cnt))
      as (reg' & dep & s' & -> & ? & ? & ? & ?).
    exists reg', dep, s'. split_and!; try done. by right.
Qed.

Lemma scan_services_passes services reg cnt :
  no_excluded_dependency exclude services →
  scan_services exclude services reg cnt
    = (foldl (register exclude) reg services, Ok (count_names cnt services)).
Proof.
  revert reg cnt. induction services as [|s0 services IH];
    intros reg cnt Hno; [done|].
  assert (no_excluded_dependency exclude services) as Hrest.
  { intros s d Hs. apply Hno. by right. }
  cbn [scan_services foldl count_names]. unfold register at 2.
  destruct (decide (name s0 ∉ exclude)) as [Hkept|Hdropped].
  - destruct (filter _ (dependencies s0)) as [|dep deps] eqn:Hfilter.
    + by rewrite IH.
    + assert (dep ∈ filter (λ dep, dep ∈ exclude) (dependencies s0))
        as [? ?]%list_elem_of_filter by (rewrite Hfilter; left).
      destruct (Hno s0 dep); try done. left.
  - by rewrite IH.
Qed.

(** Every key that the scan enters in the registry is a name that is not
    excluded, in all its outcomes. *)
Lemma scan_services_keys services reg cnt k :
  k ∈ PyDict.keys (scan_services exclude services reg cnt).1 →
  k ∈ PyDict.keys reg ∨ ((k ∉ exclude) ∧ k ∈ name <$> services).
Proof.
  revert reg cnt. induction services as [|s0 services IH];
    intros reg cnt; cbn [scan_services]; [by left|].
  rewrite fmap_cons.
  destruct (decide (name s0 ∉ exclude)) as [Hkept|Hdropped].
  - destruct (filter _ (dependencies s0)) as [|dep deps].
    + intros [Hk|[? ?]]%IH.
      * apply elem_of_keys_set in Hk as [->|?]; [right|by left].
        split; [done|left].
      * right. split; [done|by right].
    + cbn [fst]. intros [->|?]%elem_of_keys_set; [right|by left].
      split; [done|left].
  - intros [?|[? ?]]%IH; [by left|right]. split; [done|by right].
Qed.

Lemma register_all_NoDup services reg :
  NoDup (PyDict.keys reg ++ (name <$> services)) →
  foldl (register exclude) reg services
    = reg ++ ((λ s, (name s, s)) <$> filter (λ s, name s ∉ exclude) services).
Proof.
  revert reg. induction services as [|s0 services IH]; intros reg Hnd.
  { by rewrite app_nil_r. }
  rewrite fmap_cons in Hnd. cbn [foldl]. unfold register at 2.
  assert (name s0 ∉ PyDict.keys reg) as Hfresh.
  { apply NoDup_app in Hnd as (_ & Hdisj & _). intros Hin.
    apply (Hdisj _ Hin). left. }
  destruct (decide (name s0 ∉ exclude)) as [Hkept|Hdropped].
  - rewrite filter_cons_True by done. rewrite fmap_cons.
    rewrite set_fresh by done. rewrite IH.
    + by rewrite <- app_assoc.
    + rewrite keys_app, <- app_assoc. done.
  - rewrite filter_cons_False by done. apply IH.
    apply NoDup_app in Hnd as (? & Hdisj & [? ?]%NoDup_cons).
    apply NoDup_app. split_and!; try done.
    intros x Hx Hx'. apply (Hdisj x Hx). by right.
Qed.
Lemma scan_services_NoDup services reg cnt :
  NoDup (PyDict.keys reg) →
  NoDup (PyDict.keys (scan_services exclude services reg cnt).1).
Proof.
  revert reg cnt. induction services as [|s0 services IH];
    intros reg cnt Hnd; cbn [scan_services]; [done|].
  destruct (decide (name s0 ∉ exclude)); [|by apply IH].
  destruct (filter _ (dependencies s0)).
  - apply IH. by apply NoDup_keys_set.
  - by apply NoDup_keys_set.
Qed.
End scan.

(** ** The counter of names *)

Section counter.
Implicit Types (c : dict nat) (k : string).

Lemma counter_incr_get k k' c :
  default 0 (PyDict.get k' (counter_incr k c))
    = default 0 (PyDict.get k' c) + (if decide (k = k') then 1 else 0).
Proof.
  unfold counter_incr. destruct (decide (k = k')) as [->|Hne].
  - by rewrite get_set_eq.
  - rewrite (get_set_ne k k' _ c Hne). simpl. lia.
Qed.

Lemma count_names_get k c services :
  default 0 (PyDict.get k (count_names c services))
    = default 0 (PyDict.get k c) + occurrences k services.
Proof.
  revert c. induction services as [|s services IH]; intros c; simpl.
  { unfold occurrences. simpl. lia. }
  unfold count_names in *. rewrite IH, counter_incr_get.
  unfold occurrences. rewrite filter_cons.
  destruct (decide (name s = k)); simpl; lia.
Qed.

Lemma count_names_NoDup c services :
  NoDup (PyDict.keys c) → NoDup (PyDict.keys (count_names c services)).
Proof.
  revert c. induction services as [|s services IH]; intros c Hnd; [done|].
  apply IH. by apply NoDup_keys_set.
Qed.

Lemma multiples_elem_of k c :
  NoDup (PyDict.keys c) →
  k ∈ multiples c ↔ 1 < default 0 (PyDict.get k c).
Proof.
  intros Hnd. unfold multiples. rewrite list_elem_of_fmap. split.
  - intros ([k' v] & -> & [Hv Hin]%list_elem_of_filter).
    simpl in *. by rewrite (elem_of_get _ _ _ Hnd Hin).
  - destruct (PyDict.get k c) as [v|] eqn:Hget; simpl; [|lia].
    intros Hv. exists (k, v). split; [done|].
    apply list_elem_of_filter. split; [done|by apply get_elem_of].
Qed.

Lemma occurrences_NoDup services :
  NoDup (name <$> services) ↔ ∀ k, (occurrences k services ≤ 1)%nat.
Proof.
  unfold occurrences. induction services as [|s services IH].
  { split; [simpl; lia|intros _; constructor]. }
  rewrite fmap_cons, NoDup_cons, IH. split.
  - intros [Hfresh Hall] k. rewrite filter_cons.
    destruct (decide (name s = k)) as [<-|]; [|apply Hall]. simpl.
    destruct (filter _ services) as [|s' ?] eqn:Hfilter; [simpl; lia|].
    assert (s' ∈ filter (λ s0, name s0 = name s) services)
      as [Hname Hin]%list_elem_of_filter by (rewrite Hfilter; left).
    destruct Hfresh. rewrite <- Hname. by apply list_elem_of_fmap_2.
  - intros Hall. split.
    + intros (s' & Hname & Hin)%list_elem_of_fmap.
      specialize (Hall (name s)). rewrite filter_cons_True in Hall by done.
      destruct (filter _ services) as [|? ?] eqn:Hfilter; [|simpl in Hall; lia].
      eapply (filter_nil_not_elem_of (λ s0, name s0 = name s));
        [exact Hfilter|symmetry; exact Hname|exact Hin].
    + intros k. specialize (Hall k). rewrite filter_cons in Hall.
      destruct (decide (name s = k)); simpl in Hall; lia.
Qed.

(** The names counted more than once, after a scan that has passed. *)
Lemma multiples_count_names k services :
  k ∈ multiples (count_names [] services) ↔ 1 < occurrences k services.
Proof.
  rewrite multiples_elem_of by (apply count_names_NoDup; constructor).
  by rewrite count_names_get.
Qed.

Lemma multiples_nil_NoDup services :
  multiples (count_names [] services) = [] ↔ NoDup (name <$> services).
Proof.
  rewrite occurrences_NoDup. split.
  - intros Hnil k. destruct (decide (1 < occurrences k services)) as [Hk|];
      [|lia].
    apply multiples_count_names in Hk. rewrite Hnil in Hk.
    by apply elem_of_nil in Hk.
  - intros Hall. destruct (multiples _) as [|k ?] eqn:Hm; [done|].
    assert (k ∈ multiples (count_names [] services)) as Hk
      by (rewrite Hm; left).
    apply multiples_count_names in Hk. specialize (Hall k). lia.
Qed.
End counter.

(** ** The resolution of the dependencies *)

Section resolution.
Implicit Types (reg : dict Service).

Lemma resolve_Ok reg deps refs :
  resolve reg deps = Ok refs →
  refs = deps ∧ ∀ d, d ∈ deps → d ∈ PyDict.keys reg.
Proof.
  revert refs. induction deps as [|d deps IH]; intros refs; simpl.
  { intros [= <-]. split; [done|]. by intros ? ?%elem_of_nil. }
  destruct (PyDict.get d reg) as [s|] eqn:Hget; [|done].
  destruct (resolve reg deps) as [refs'|]; [|done].
  intros [= <-]. destruct (IH refs' eq_refl) as [-> Hall].
  split; [done|]. intros d' [->|?]%elem_of_cons; [|by apply Hall].
  apply get_Some_keys. by eexists.
Qed.

Lemma resolve_Raise reg deps e :
  resolve reg deps = Raise e →
  ∃ k, e = KeyError k ∧ k ∈ deps ∧ k ∉ PyDict.keys reg.
Proof.
  induction deps as [|d deps IH]; simpl; [done|].
  destruct (PyDict.get d reg) as [s|] eqn:Hget.
  - destruct (resolve reg deps) as [refs'|e']; [done|].
    intros [= <-]. destruct (IH eq_refl) as (k & -> & ? & ?).
    exists k. split_and!; [done|by right|done].
  - intros [= <-]. exists d. split_and!; [done|left|].
    by apply get_None_keys.
Qed.

Lemma resolve_all_keys todo reg :
  (∀ item, item ∈ todo → item.1 ∈ PyDict.keys reg) →
  PyDict.keys (resolve_all todo reg).1 = PyDict.keys reg.
Proof.
  revert reg. induction todo as [|[k s] todo IH]; intros reg Htodo; [done|].
  cbn [resolve_all]. destruct (resolve reg (dependencies s)); [|done].
  assert (k ∈ PyDict.keys reg) as Hk by (apply (Htodo (k, s)); left).
  rewrite IH; rewrite keys_set, decide_True by done; [done|].
  intros item Hitem. apply Htodo. by right.
Qed.

(** Only a [KeyError] comes out of the resolution. *)
Lemma resolve_all_Raise todo reg e :
  (resolve_all todo reg).2 = Raise e → ∃ k, e = KeyError k.
Proof.
  revert reg. induction todo as [|[k s] todo IH]; intros reg; [done|].
  cbn [resolve_all].
  destruct (resolve reg (dependencies s)) as [refs|e'] eqn:Hres; [apply IH|].
  intros [= <-]. apply resolve_Raise in Hres as (k' & -> & _). by eexists.
Qed.

(** A dependency that is no key of the registry makes the resolution
    raise [KeyError]. *)
Lemma resolve_all_dangling todo reg k s d :
  (∀ item, item ∈ todo → item.1 ∈ PyDict.keys reg) →
  (k, s) ∈ todo → d ∈ dependencies s → d ∉ PyDict.keys reg →
  ∃ reg' key,
    resolve_all todo reg = (reg', Raise (KeyError key)) ∧
    PyDict.keys reg' = PyDict.keys reg ∧ key ∉ PyDict.keys reg.
Proof.
  revert reg. induction todo as [|[k0 s0] todo IH];
    intros reg Htodo Hin Hd Hdangling.
  { by apply elem_of_nil in Hin. }
  cbn [resolve_all].
  destruct (resolve reg (dependencies s0)) as [refs|e] eqn:Hres.
  - apply resolve_Ok in Hres as [-> Hall].
    apply elem_of_cons in Hin as [[= -> ->]|Hin];
      [by destruct Hdangling; apply Hall|].
    assert (k0 ∈ PyDict.keys reg) as Hk0 by (apply (Htodo (k0, s0)); left).
    set (reg1 := PyDict.set k0 _ reg).
    assert (PyDict.keys reg1 = PyDict.keys reg) as Hkeys.
    { unfold reg1. by rewrite keys_set, decide_True. }
    destruct (IH reg1) as (reg' & key & -> & Hkeys' & Hkey); try done.
    + intros item Hitem. rewrite Hkeys. apply Htodo. by right.
    + by rewrite Hkeys.
    + exists reg', key. rewrite <- Hkeys. done.
  - apply resolve_Raise in Hres as (key & -> & _ & Hkey).
    by exists reg, key.
Qed.

(** A resolution that passes leaves the registry as it represents it, and
    has found every dependency among the keys. *)
Lemma resolve_all_Ok todo reg reg' :
  (∀ k s, (k, s) ∈ todo → PyDict.get k reg = Some s) →
  resolve_all todo reg = (reg', Ok ()) →
  reg' = reg ∧
  ∀ k s d, (k, s) ∈ todo → d ∈ dependencies s → d ∈ PyDict.keys reg.
Proof.
  induction todo as [|[k0 s0] todo IH]; intros Htodo; cbn [resolve_all].
  { intros [= <-]. split; [done|]. by intros k s d ?%elem_of_nil. }
  destruct (resolve reg (dependencies s0)) as [refs|e] eqn:Hres; [|done].
  apply resolve_Ok in Hres as [-> Hall].
  assert (PyDict.set k0
            {| name := name s0; image := image s0;
               dependencies := dependencies s0 |} reg = reg) as ->.
  { apply set_same. destruct s0. apply (Htodo k0). left. }
  intros Hrest. destruct IH as [-> Hdeps]; [|done|].
  { intros k s ?. apply Htodo. by right. }
  split; [done|].
  intros k s d [[= -> ->]|?]%elem_of_cons; [apply Hall|by eapply Hdeps].
Qed.
End resolution.

(** The registry that a successful [load] leaves is closed: every reference
    of every definition in it is one of its keys, so [deref] never falls
    back on its default there. *)
Lemma load_closed services exclude reg :
  load services exclude = (reg, Ok ()) →
  ∀ k s d, PyDict.get k reg = Some s → d ∈ dependencies s →
           d ∈ PyDict.keys reg.
Proof.
  unfold load, load_definitions. destruct services as [|s0 services]; [done|].
  pose proof (scan_services_NoDup exclude (s0 :: services) [] []
                (NoDup_nil_2 (A:=string))) as Hnd.
  destruct (scan_services _ _ _ _) as [reg0 [cnt|e]]; [|done].
  destruct (multiples cnt); [|done].
  destruct (resolve_all reg0 reg0) as [reg1 [[]|e]] eqn:Hres; [|done].
  apply resolve_all_Ok in Hres as [-> Hdeps].
  - intros [= <- _] k s d Hget. apply (Hdeps k s d). by apply get_elem_of.
  - intros k s. by apply elem_of_get.
Qed.

(** ** The walk of the cycle check *)

Section walk_facts.
Variable all_by_name : dict Service.
Variable start : string.

Local Abbreviation N := (length all_by_name).
Local Abbreviation go_up := (go_up_dependencies all_by_name start).
Local Abbreviation for_dep := (for_dependency all_by_name start).

(** A call runs the loop over the dependencies of [checked], one level
    deeper and with the counter incremented. *)
Lemma go_up_dependencies_S fuel checked count :
  go_up (S fuel) checked count
    = for_dep fuel (dependencies checked) (count + 1).
Proof.
  cbn [go_up_dependencies]. generalize (count + 1).
  induction (dependencies checked) as [|ref deps IH]; intros c; [done|].
  cbn [for_dependency]. repeat case_decide; try done.
  destruct (go_up fuel _ c) as [c' [[]|e]]; [apply IH|done].
Qed.

Lemma for_dependency_budget fuel deps count :
  (∀ checked c, c < N → N - c ≤ fuel →
     within_budget all_by_name (c + 1) (go_up fuel checked c)) →
  count ≤ N → N - count ≤ fuel →
  within_budget all_by_name count (for_dep fuel deps count).
Proof.
  intros Hcall. revert count.
  induction deps as [|ref deps IH]; intros count Hle Hfuel;
    cbn [for_dependency].
  { split; [done|simpl; lia]. }
  case_decide; [split; [done|simpl; lia]|].
  case_decide; [split; [done|simpl; lia]|].
  destruct (Hcall (deref all_by_name ref) count) as [Hout Hcount];
    [lia|lia|].
  destruct (go_up fuel _ count) as [c' [[]|e]]; simpl in *.
  - destruct (IH c') as [? ?]; [lia|lia|]. split; [done|lia].
  - split; [done|simpl; lia].
Qed.

(** With a depth of [N - count] the walk never reaches the bottom of its
    fuel, and the counter, which counts the calls, stays within [N]. *)
Lemma go_up_dependencies_budget fuel checked count :
  count < N → N - count ≤ fuel →
  within_budget all_by_name (count + 1) (go_up fuel checked count).
Proof.
  revert checked count.
  induction fuel as [|fuel IH]; intros checked count Hlt Hfuel; [lia|].
  rewrite go_up_dependencies_S.
  apply for_dependency_budget; [|lia|lia].
  intros checked' c ? ?. by apply IH.
Qed.

Lemma for_dependency_Raise fuel deps count c e :
  (∀ checked c0 c1 e0, go_up fuel checked c0 = (c1, Raise e0) →
     e0 = CircularDependency ∨ e0 = RecursionError) →
  for_dep fuel deps count = (c, Raise e) →
  e = CircularDependency ∨ e = RecursionError.
Proof.
  intros Hcall. revert count.
  induction deps as [|ref deps IH]; intros count; cbn [for_dependency];
    [done|].
  case_decide; [intros [= <- <-]; by left|].
  case_decide; [done|].
  destruct (go_up fuel _ count) as [c' [[]|e']] eqn:Hgo; [apply IH|].
  intros [= <- <-]. by eapply Hcall.
Qed.

(** The walk raises [CircularDependency] or [RecursionError] and nothing
    else. *)
Lemma go_up_dependencies_Raise fuel checked count c e :
  go_up fuel checked count = (c, Raise e) →
  e = CircularDependency ∨ e = RecursionError.
Proof.
  revert checked count c e.
  induction fuel as [|fuel IH]; intros checked count c e.
  { intros [= <- <-]. by right. }
  rewrite go_up_dependencies_S. apply for_dependency_Raise.
  intros checked' c0 c1 e0. apply IH.
Qed.
End walk_facts.

Lemma check_from_Raise all_by_name with_dependencies e :
  check_from all_by_name with_dependencies = Raise e →
  e = CircularDependency ∨ e = RecursionError.
Proof.
  induction with_dependencies as [|s rest IH]; cbn [check_from]; [done|].
  destruct (go_up_dependencies _ _ _ s 0) as [c [[]|e']] eqn:Hgo; [done|].
  intros [= <-]. by eapply go_up_dependencies_Raise.
Qed.

Lemma check_from_no_RecursionError all_by_name with_dependencies :
  0 < length all_by_name →
  check_from all_by_name with_dependencies ≠ Raise RecursionError.
Proof.
  intros Hpos.
  induction with_dependencies as [|s rest IH]; cbn [check_from]; [done|].
  destruct (go_up_dependencies_budget all_by_name (name s)
              (length all_by_name) s 0) as [Hout _]; [lia|lia|].
  destruct (go_up_dependencies _ _ _ s 0) as [c [[]|e']]; [done|].
  simpl in Hout. congruence.
Qed.

Lemma check_circular_dependencies_Raise all_by_name e :
  check_circular_dependencies all_by_name = Raise e → e = CircularDependency.
Proof.
  unfold check_circular_dependencies. intros Hcheck.
  destruct (check_from_Raise _ _ _ Hcheck) as [->| ->]; [done|].
  destruct all_by_name as [|item reg]; [done|].
  by apply check_from_no_RecursionError in Hcheck; [|simpl; lia].
Qed.

(** * The registry: what [load_definitions] raises *)

(** C8: if a definition that is not excluded depends on an excluded service,
    [load_definitions] fails with [ExcludedDependency], in whatever order the
    definitions are declared and scanned, and on whatever registry. *)
Theorem excluded_dependency_any_order
    services services' exclude all_by_name s d :
  s ∈ services → name s ∉ exclude → d ∈ dependencies s → d ∈ exclude →
  services ≡ₚ services' →
  ∃ reg dep s',
    load_definitions services' exclude all_by_name
      = (reg, Raise (ExcludedDependency dep (name s'))) ∧
    s' ∈ services ∧ (name s' ∉ exclude) ∧
    dep ∈ dependencies s' ∧ dep ∈ exclude.
Proof.
  intros Hs Hname Hd Hex Hperm. rewrite Hperm in Hs.
  destruct (scan_services_raises exclude services' all_by_name [] s d)
    as (reg & dep & s' & Hscan & Hs' & ? & ? & ?); try done.
  exists reg, dep, s'. rewrite <- Hperm in Hs'. split_and!; try done.
  unfold load_definitions. destruct services' as [|s0 services'].
  { by apply elem_of_nil in Hs. }
  by rewrite Hscan.
Qed.

Lemma excluded_dependency_any_order_witness :
  ∃ reg dep s',
    load_definitions [Examples.svc "db" []; Examples.svc "web" ["db"]]
        ["db"] []
      = (reg, Raise (ExcludedDependency dep (name s'))) ∧
    s' ∈ [Examples.svc "web" ["db"]; Examples.svc "db" []] ∧
    (name s' ∉ ["db"]) ∧ dep ∈ dependencies s' ∧ dep ∈ ["db"].
Proof.
  apply (excluded_dependency_any_order
           [Examples.svc "web" ["db"]; Examples.svc "db" []]
           [Examples.svc "db" []; Examples.svc "web" ["db"]]
           ["db"] [] (Examples.svc "web" ["db"]) "db").
  - left.
  - simpl. by intros [=]%list_elem_of_singleton.
  - left.
  - left.
  - apply perm_swap.
Defined.

(** C5, as the code has it: when no kept definition depends on an excluded
    name, [load] fails with [RepeatedServiceName] exactly when two
    definitions share a name, excluded or not, and the names it reports are
    those declared more than once; an excluded definition is never entered in
    the registry. *)
Theorem repeated_name_counts_excluded services exclude :
  services ≠ [] → no_excluded_dependency exclude services →
  (¬ NoDup (name <$> services) →
     ∃ reg names,
       load services exclude = (reg, Raise (RepeatedServiceName names)) ∧
       ∀ k, k ∈ names ↔ 1 < occurrences k services) ∧
  (NoDup (name <$> services) →
     ∀ names, (load services exclude).2 ≠ Raise (RepeatedServiceName names)) ∧
  (∀ k, k ∈ PyDict.keys (load services exclude).1 → k ∉ exclude).
Proof.
  intros Hne Hno. unfold load, load_definitions.
  destruct services as [|s0 services0] eqn:Hservices; [done|].
  rewrite <- Hservices in *. clear Hne.
  pose proof (scan_services_keys exclude services [] []) as Hkeys.
  rewrite (scan_services_passes exclude services [] [] Hno) in *.
  cbn [fst] in Hkeys.
  assert (∀ k, k ∈ PyDict.keys (foldl (register exclude) [] services) →
               k ∉ exclude) as Hkept.
  { intros k [Hk|[Hk _]]%Hkeys; [by apply elem_of_nil in Hk|done]. }
  pose proof (multiples_nil_NoDup services) as Hmult.
  destruct (multiples (count_names [] services)) as [|k0 ks] eqn:Hm.
  - split_and!.
    + intros Hdup. destruct Hdup. by apply Hmult.
    + intros _ names.
      destruct (resolve_all _ _) as [reg [[]|e]] eqn:Hres; cbn [snd].
      * intros Hcheck.
        by apply check_circular_dependencies_Raise in Hcheck.
      * intros [= ->].
        by destruct (resolve_all_Raise _ _ _ (f_equal snd Hres)).
    + destruct (resolve_all _ _) as [reg [[]|e]] eqn:Hres; cbn [fst];
        intros k Hk; apply Hkept;
        rewrite <- (resolve_all_keys (foldl (register exclude) [] services)
                      (foldl (register exclude) [] services));
        try (by rewrite Hres);
        intros item ?; by apply list_elem_of_fmap_2.
  - split_and!.
    + intros _. eexists _, _. split; [done|]. intros k.
      rewrite <- Hm. apply multiples_count_names.
    + intros Hnd. apply Hmult in Hnd. done.
    + done.
Qed.

Lemma repeated_name_counts_excluded_witness :
  ∃ reg names,
    load [Examples.svc "x" []; Examples.svc "x" []; Examples.svc "y" []]
         ["x"]
      = (reg, Raise (RepeatedServiceName names)) ∧
    ∀ k, k ∈ names ↔
         1 < occurrences k
               [Examples.svc "x" []; Examples.svc "x" []; Examples.svc "y" []].
Proof.
  apply (repeated_name_counts_excluded
           [Examples.svc "x" []; Examples.svc "x" []; Examples.svc "y" []]
           ["x"]).
  - done.
  - intros s d Hs Hname Hd.
    apply elem_of_cons in Hs as [->|Hs]; [destruct Hname; left|].
    apply elem_of_cons in Hs as [->|Hs]; [destruct Hname; left|].
    apply list_elem_of_singleton in Hs as ->. by apply elem_of_nil in Hd.
  - simpl. intros [Hfresh _]%NoDup_cons. apply Hfresh. left.
Defined.

(** C5 fails as stated: a name shared only by excluded definitions makes
    [load] fail with [RepeatedServiceName]. *)
Lemma repeated_name_of_excluded_definitions :
  load [Examples.svc "x" []; Examples.svc "x" []; Examples.svc "y" []] ["x"]
    = ([("y", Examples.svc "y" [])], Raise (RepeatedServiceName ["x"])).
Proof. reflexivity. Qed.

(** C10, as the code has it: when no kept definition depends on an excluded
    name and no name is declared twice, a dependency of a kept definition
    that names a service neither defined nor excluded makes [load] raise
    [KeyError], which is no [ServiceLoadError], during the resolution; the
    registry then holds every kept definition. *)
Theorem dangling_dependency_KeyError services exclude s d :
  no_excluded_dependency exclude services → NoDup (name <$> services) →
  s ∈ services → name s ∉ exclude → d ∈ dependencies s →
  d ∉ name <$> services → d ∉ exclude →
  ∃ reg key,
    load services exclude = (reg, Raise (KeyError key)) ∧
    is_ServiceLoadError (KeyError key) = false ∧
    (key ∉ PyDict.keys reg) ∧
    PyDict.keys reg = name <$> filter (λ s, name s ∉ exclude) services.
Proof.
  intros Hno Hnd Hs Hname Hd Hundefined _. unfold load, load_definitions.
  destruct services as [|s0 services0] eqn:Hservices.
  { by apply elem_of_nil in Hs. }
  rewrite <- Hservices in *.
  rewrite (scan_services_passes exclude services [] [] Hno).
  rewrite (proj2 (multiples_nil_NoDup services) Hnd).
  rewrite (register_all_NoDup exclude services []) by done.
  rewrite app_nil_l.
  set (reg := (λ s, (name s, s)) <$> filter (λ s, name s ∉ exclude) services).
  assert (PyDict.keys reg
          = name <$> filter (λ s, name s ∉ exclude) services) as Hkeys.
  { unfold PyDict.keys, reg. rewrite <- list_fmap_compose. done. }
  destruct (resolve_all_dangling reg reg (name s) s d)
    as (reg' & key & Hr & Hkeys' & Hkey).
  - intros item ?. by apply list_elem_of_fmap_2.
  - apply list_elem_of_fmap. exists s. split; [done|].
    by apply list_elem_of_filter.
  - done.
  - rewrite Hkeys.
    intros (s' & -> & [_ ?]%list_elem_of_filter)%list_elem_of_fmap.
    apply Hundefined. by apply list_elem_of_fmap_2.
  - exists reg', key. rewrite Hr, Hkeys', <- Hkeys. done.
Qed.

Lemma dangling_dependency_KeyError_witness :
  ∃ reg key,
    load [Examples.svc "db" []; Examples.svc "api" ["db"; "cache"]] []
      = (reg, Raise (KeyError key)) ∧
    is_ServiceLoadError (KeyError key) = false ∧
    (key ∉ PyDict.keys reg) ∧
    PyDict.keys reg
      = name <$> filter (λ s, name s ∉ [])
                   [Examples.svc "db" []; Examples.svc "api" ["db"; "cache"]].
Proof.
  apply (dangling_dependency_KeyError
           [Examples.svc "db" []; Examples.svc "api" ["db"; "cache"]] []
           (Examples.svc "api" ["db"; "cache"]) "cache").
  - intros s d _ _ _. apply not_elem_of_nil.
  - simpl. repeat constructor.
    + by intros [=]%list_elem_of_singleton.
    + apply not_elem_of_nil.
  - right. left.
  - apply not_elem_of_nil.
  - right. left.
  - simpl. intros Hin.
    apply elem_of_cons in Hin as [[=]|Hin].
    by apply list_elem_of_singleton in Hin.
  - apply not_elem_of_nil.
Defined.

(** C10 fails as stated: [api] depends on [cache], which is neither defined
    nor excluded, and [load] raises a [ServiceLoadError], for the excluded
    dependency of [web]. *)
Lemma dangling_dependency_preempted :
  load [Examples.svc "api" ["cache"]; Examples.svc "web" ["db"]] ["db"]
    = ([("api", Examples.svc "api" ["cache"]);
        ("web", Examples.svc "web" ["db"])],
       Raise (ExcludedDependency "db" "web")) ∧
  is_ServiceLoadError (ExcludedDependency "db" "web") = true.
Proof. split; reflexivity. Qed.

(** * The cycle check *)

(** C1 fails on the code: the registries of [leaf_cycle] and of
    [padded_cycle] have the cycle [A -> B -> A], and [load] returns without
    raising.  In [leaf_cycle] the walk from [A] calls [A], [X] and [B]; in
    the call on [B] the counter is at the number of definitions when the
    first dependency [X] is looked at, and the call returns before it comes
    to the dependency [A].  In [padded_cycle] the walk from [A] spends its six
    steps in the diamond below [X], whose bottom [R] it visits twice, and
    never calls [B].  The walks from [B] are the same with [A] and [B]
    exchanged. *)
Theorem cycle_undetected :
  (∃ reg, load Examples.leaf_cycle [] = (reg, Ok ()) ∧ cyclic reg) ∧
  (∃ reg, load Examples.padded_cycle [] = (reg, Ok ()) ∧ cyclic reg).
Proof.
  split; (eexists; split; [reflexivity|]); exists "A";
    (apply tc_l with "B"; [|apply tc_once]);
    eexists; (split; [reflexivity|]); simpl; right; left.
Qed.

(** C4: the cycle check ends on every registry, cyclic or not.  With a
    recursion depth of the number [N] of definitions or more, the walk from
    any definition of the registry ends without exhausting the depth, and its
    counter, the number of calls made, ends between [1] and [N]. *)
Theorem cycle_check_terminates all_by_name :
  check_circular_dependencies all_by_name ≠ Raise RecursionError ∧
  ∀ service fuel,
    service ∈ PyDict.values all_by_name → length all_by_name ≤ fuel →
    (go_up_dependencies all_by_name (name service) fuel service 0).2
      ≠ Raise RecursionError ∧
    1 ≤ (go_up_dependencies all_by_name (name service) fuel service 0).1
      ≤ length all_by_name.
Proof.
  split.
  - intros Hcheck. by apply check_circular_dependencies_Raise in Hcheck.
  - intros service fuel Hin Hfuel.
    assert (0 < length all_by_name).
    { destruct all_by_name; [by apply elem_of_nil in Hin|simpl; lia]. }
    apply (go_up_dependencies_budget all_by_name (name service)
             fuel service 0); lia.
Qed.

Lemma cycle_check_terminates_witness :
  (go_up_dependencies (load Examples.padded_cycle []).1 "A" 6
     (Examples.svc "A" ["X"; "B"]) 0).2
    ≠ Raise RecursionError ∧
  1 ≤ (go_up_dependencies (load Examples.padded_cycle []).1 "A" 6
         (Examples.svc "A" ["X"; "B"]) 0).1
    ≤ length (load Examples.padded_cycle []).1.
Proof.
  apply (proj2 (cycle_check_terminates (load Examples.padded_cycle []).1)
           (Examples.svc "A" ["X"; "B"]) 6).
  - left.
  - vm_compute. lia.
Defined.

(** * The run coordinator *)

Section coordinator_facts.
Context {A : Type} `{ServiceAgent A}.
Implicit Types (store : gmap string A) (context : RunningContext A)
  (self : ServiceCollection A).

Lemma filter_not_elem_of_nil (w : list string) :
  filter (λ k, k ∉ []) w = w.
Proof.
  induction w as [|k w IH]; [done|].
  rewrite filter_cons_True by apply not_elem_of_nil. by rewrite IH.
Qed.

(** Popping the keys [l] one after the other. *)
Lemma foldl_pop (l w : list string) :
  foldl (λ d name, pop name d) w l = filter (λ k, k ∉ l) w.
Proof.
  revert w. induction l as [|n l IH]; intros w; cbn [foldl].
  { by rewrite filter_not_elem_of_nil. }
  rewrite IH. unfold pop. rewrite list_filter_filter.
  apply list_filter_iff. intros k. rewrite not_elem_of_cons. tauto.
Qed.

Lemma filter_not_elem_of_filter (P : string → Prop)
    `{!∀ k, Decision (P k)} (w : list string) :
  filter (λ k, k ∉ filter P w) w = filter (λ k, ¬ P k) w.
Proof.
  assert (∀ l : list string, (∀ k, k ∈ l → k ∈ w) →
            filter (λ k, k ∉ filter P w) l = filter (λ k, ¬ P k) l) as Hl.
  { induction l as [|k l IH]; intros Hsub; [done|].
    assert (k ∈ w) by (apply Hsub; left).
    rewrite !filter_cons, IH by (intros ? ?; apply Hsub; by right).
    destruct (decide (P k)) as [HP|HP].
    - rewrite decide_False, (decide_False (P:=¬ P k)); [done|tauto|].
      intros Hk. apply Hk. by apply list_elem_of_filter.
    - rewrite decide_True, (decide_True (P:=¬ P k)); [done|done|].
      by intros [? ?]%list_elem_of_filter. }
  by apply Hl.
Qed.

(** The loop of [service_started] over a dictionary: each waiting agent is
    notified once, no other agent is touched, and the agents collected are
    those that can start once notified, in the order of the dictionary. *)
Lemma notify_spec started (w : list string) store acc :
  NoDup w →
  ∃ store',
    notify started w store acc
      = (store', acc ++ filter (λ n, can_start_at store' n = true) w) ∧
    ∀ n, store' !! n
         = if decide (n ∈ w)
           then process_service_started started <$> store !! n
           else store !! n.
Proof.
  intros Hnd. revert store acc.
  induction Hnd as [|n0 w Hfresh Hnd IH]; intros store acc.
  { exists store. by rewrite app_nil_r. }
  cbn [notify].
  set (store1 := alter (process_service_started started) n0 store).
  destruct (IH store1
              (if can_start_at store1 n0 then acc ++ [n0] else acc))
    as (store' & -> & Hlookup).
  exists store'.
  assert (store' !! n0 = store1 !! n0) as Hn0.
  { rewrite Hlookup. by rewrite decide_False. }
  split.
  - f_equal. rewrite filter_cons.
    assert (can_start_at store' n0 = can_start_at store1 n0) as ->.
    { unfold can_start_at. by rewrite Hn0. }
    destruct (can_start_at store1 n0).
    + rewrite decide_True by done. by rewrite <- app_assoc.
    + by rewrite decide_False.
  - intros n. destruct (decide (n = n0)) as [->|Hne].
    + rewrite decide_True by left. rewrite Hn0. apply lookup_alter_eq.
    + rewrite Hlookup. unfold store1. rewrite lookup_alter_ne by done.
      destruct (decide (n ∈ w)) as [Hin|Hin].
      * rewrite decide_True; [done|by right].
      * rewrite decide_False; [done|].
        intros [?|?]%elem_of_cons; done.
Qed.

(** What [service_started] returns and leaves, for a name of the active
    dictionary. *)
Lemma service_started_Ok started context :
  NoDup (waiting_agents context) →
  started ∈ service_agents context →
  ∃ store',
    service_started started context
      = Ok ({| agents := store';
               service_agents := pop started (service_agents context);
               without_dependencies := without_dependencies context;
               waiting_agents :=
                 filter (λ n, can_start_at store' n ≠ true)
                        (waiting_agents context) |},
            filter (λ n, can_start_at store' n = true)
                   (waiting_agents context)) ∧
    ∀ n, store' !! n
         = if decide (n ∈ waiting_agents context)
           then process_service_started started <$> agents context !! n
           else agents context !! n.
Proof.
  intros Hnd Hin. unfold service_started. rewrite decide_True by done.
  destruct (notify_spec started (waiting_agents context)
              (agents context) [] Hnd) as (store' & -> & Hlookup).
  exists store'. split; [|done]. rewrite app_nil_l, foldl_pop.
  by rewrite (filter_not_elem_of_filter
                (λ n, can_start_at store' n = true)).
Qed.

Lemma create_agents_NoDup (services_by_name : dict Service) :
  NoDup (PyDict.keys (create_agents services_by_name)).
Proof.
  unfold create_agents.
  assert (∀ d : dict A, NoDup (PyDict.keys d) →
            NoDup (PyDict.keys
                     (foldl (λ d item, PyDict.set item.1 (new_agent item.2) d)
                            d services_by_name))) as Hfold.
  { induction services_by_name as [|item items IH]; intros d Hd; [done|].
    cbn [foldl]. apply IH. by apply NoDup_keys_set. }
  apply Hfold. constructor.
Qed.

Lemma launch_invariant_start registry :
  launch_invariant (start_without_dependencies (loaded registry)).
Proof.
  unfold launch_invariant, waiting_of. cbn. unfold PyDict.keys.
  rewrite <- fmap_app.
  rewrite (filter_app_complement
             (λ item : string * A, can_start item.2 = true)).
  apply create_agents_NoDup.
Qed.

Lemma launch_invariant_deliver self r :
  launch_invariant self → launch_invariant (deliver self r).
Proof.
  unfold launch_invariant, waiting_of. intros Hinv.
  destruct r as [started|failed_service]; [|done].
  cbn [deliver]. unfold start_next.
  destruct (running_context self) as [context|] eqn:Hcontext; [|by rewrite Hcontext].
  unfold service_started.
  destruct (decide (started ∈ service_agents context)); [|by rewrite Hcontext].
  assert (NoDup (waiting_agents context)) as Hnd
    by (by apply NoDup_app in Hinv as (_ & _ & ?)).
  destruct (notify_spec started (waiting_agents context)
              (agents context) [] Hnd) as (store' & -> & _).
  cbn. rewrite foldl_pop.
  rewrite (filter_not_elem_of_filter (λ n, can_start_at store' n = true)).
  rewrite <- app_assoc.
  by rewrite (filter_app_complement (λ n, can_start_at store' n = true)).
Qed.

Lemma launch_invariant_run reports self :
  launch_invariant self → launch_invariant (run reports self).
Proof.
  revert self. induction reports as [|r reports IH]; intros self Hinv;
    [done|].
  apply IH. by apply launch_invariant_deliver.
Qed.

(** C6: for a name of the active dictionary, [service_started] removes the
    name from the active dictionary, notifies every waiting agent and no
    other, returns the waiting agents that can start once notified, and
    leaves waiting exactly those that cannot. *)
Theorem service_started_unlocks started context :
  NoDup (waiting_agents context) →
  started ∈ service_agents context →
  ∃ context' startable,
    service_started started context = Ok (context', startable) ∧
    (∀ n, n ∈ service_agents context' ↔
          n ∈ service_agents context ∧ n ≠ started) ∧
    (∀ n, n ∈ waiting_agents context →
          agents context' !! n
            = process_service_started started <$> agents context !! n) ∧
    (∀ n, n ∉ waiting_agents context →
          agents context' !! n = agents context !! n) ∧
    startable = filter (λ n, can_start_at (agents context') n = true)
                       (waiting_agents context) ∧
    waiting_agents context'
      = filter (λ n, can_start_at (agents context') n ≠ true)
               (waiting_agents context).
Proof.
  intros Hnd Hin.
  destruct (service_started_Ok started context Hnd Hin)
    as (store' & -> & Hlookup).
  eexists _, _. split; [done|]. cbn. split_and!; try done.
  - intros n. unfold pop. rewrite list_elem_of_filter. tauto.
  - intros n Hn. by rewrite Hlookup, decide_True.
  - intros n Hn. by rewrite Hlookup, decide_False.
Qed.

(** C7: in a run, whatever the agents report and in whatever order, no
    agent is launched twice, and a launched agent is not waiting any more. *)
Theorem no_agent_launched_twice registry reports :
  NoDup (launched (run reports
                     (start_without_dependencies (loaded registry)))) ∧
  ∀ n, n ∈ launched (run reports
                       (start_without_dependencies (loaded registry))) →
       n ∉ waiting_of (run reports
                         (start_without_dependencies (loaded registry))).
Proof.
  pose proof (launch_invariant_run reports _
                (launch_invariant_start registry)) as Hinv.
  apply NoDup_app in Hinv as (? & ? & _). done.
Qed.

Lemma same_but_failed_deliver self1 self2 r :
  same_but_failed self1 self2 →
  same_but_failed (deliver self1 r) (deliver self2 r).
Proof.
  destruct self1, self2. intros (? & ? & ? & ?). simplify_eq/=.
  destruct r as [started|failed_service]; [|done].
  unfold deliver, start_next; simpl.
  destruct running_context1 as [context|]; [|done].
  by destruct (service_started started context) as [[? ?]|].
Qed.

Lemma same_but_failed_run reports self1 self2 :
  same_but_failed self1 self2 →
  same_but_failed (run reports self1) (run reports self2).
Proof.
  revert self1 self2. induction reports as [|r reports IH];
    intros self1 self2 Hsame; [done|].
  apply IH. by apply same_but_failed_deliver.
Qed.

(** C3, as the code has it: [service_failed] sets [failed], which stays
    set, and changes nothing else: no agent is cancelled and the
    dictionaries of the context are as they were.  The flag is not looked at
    when agents are launched: whatever is reported afterwards, the agents
    launched and the context are those of the same run without the
    failure. *)
Theorem failed_flag_not_consulted self failed_service reports :
  failed (run reports (service_failed failed_service self)) = true ∧
  launched (run reports (service_failed failed_service self))
    = launched (run reports self) ∧
  running_context (run reports (service_failed failed_service self))
    = running_context (run reports self).
Proof.
  destruct (same_but_failed_run reports
              (service_failed failed_service self) self)
    as (_ & ? & ? & ?); done.
Qed.

(** C9: [done] holds exactly when no agent is waiting; a failure that
    leaves agents waiting gives a collection that has failed and is not
    done. *)
Theorem done_iff_no_waiting self context failed_service :
  running_context self = Some context →
  (done context = true ↔ waiting_agents context = []) ∧
  (waiting_agents context ≠ [] →
     failed (service_failed failed_service self) = true ∧
     done <$> running_context (service_failed failed_service self)
       = Some false).
Proof.
  intros Hcontext. unfold done. split.
  - by rewrite bool_decide_eq_true.
  - intros Hwaiting. split; [done|]. cbn. rewrite Hcontext. cbn.
    by rewrite bool_decide_false.
Qed.

(** The value of [start_all] is [None] whenever it returns. *)
Lemma start_all_None schedule self r :
  start_all schedule self = Some r → r.2 = PyNone.
Proof.
  unfold start_all. destruct (wait _ _); [|done]. by intros [= <-].
Qed.

Lemma start_services_no_line services exclude schedule line :
  start_services services exclude schedule ≠ Some (Ok line).
Proof.
  unfold start_services.
  destruct (load_definitions _ _ _) as [registry [[]|e]]; [|done].
  destruct (start_all _ _) as [[self v]|] eqn:Hstart; [|done].
  apply start_all_None in Hstart. simpl in Hstart. by subst.
Qed.
End coordinator_facts.

Lemma service_started_unlocks_witness :
  ∃ context' startable,
    service_started "db" (new_context (A:=Agent) (load Examples.chain []).1)
      = Ok (context', startable) ∧
    (∀ n, n ∈ service_agents context' ↔
          n ∈ service_agents
                (new_context (A:=Agent) (load Examples.chain []).1) ∧
          n ≠ "db") ∧
    (∀ n, n ∈ waiting_agents
                (new_context (A:=Agent) (load Examples.chain []).1) →
          agents context' !! n
            = process_service_started "db"
                <$> agents (new_context (load Examples.chain []).1) !! n) ∧
    (∀ n, n ∉ waiting_agents
                (new_context (A:=Agent) (load Examples.chain []).1) →
          agents context' !! n
            = agents (new_context (load Examples.chain []).1) !! n) ∧
    startable
      = filter (λ n, can_start_at (agents context') n = true)
          (waiting_agents
             (new_context (A:=Agent) (load Examples.chain []).1)) ∧
    waiting_agents context'
      = filter (λ n, can_start_at (agents context') n ≠ true)
          (waiting_agents
             (new_context (A:=Agent) (load Examples.chain []).1)).
Proof.
  apply (service_started_unlocks "db"
           (new_context (A:=Agent) (load Examples.chain []).1)).
  - vm_compute. repeat constructor.
    + by intros [=]%list_elem_of_singleton.
    + apply not_elem_of_nil.
  - vm_compute. left.
Defined.

(** C3 fails as stated: [A] has failed, and the completion of [B] that
    follows launches [C]. *)
Lemma launch_after_failure :
  failed (run [Failed "A"] (Examples.started Examples.siblings)) = true ∧
  launched (run [Failed "A"] (Examples.started Examples.siblings))
    = ["A"; "B"] ∧
  launched (run [Failed "A"; Started "B"]
              (Examples.started Examples.siblings))
    = ["A"; "B"; "C"].
Proof. split_and!; vm_compute; reflexivity. Qed.

Lemma done_iff_no_waiting_witness :
  (done (new_context (A:=Agent) (load Examples.chain []).1) = true ↔
   waiting_agents (new_context (A:=Agent) (load Examples.chain []).1) = []) ∧
  (waiting_agents (new_context (A:=Agent) (load Examples.chain []).1) ≠ [] →
     failed (service_failed "db" (Examples.started Examples.chain)) = true ∧
     done <$> running_context
                (service_failed "db" (Examples.started Examples.chain))
       = Some false).
Proof.
  apply (done_iff_no_waiting (Examples.started Examples.chain)
           (new_context (load Examples.chain []).1) "db").
  reflexivity.
Defined.

(** C2 fails on the code.  [start_all] has no [return] statement, so
    [start_services] gets [None] for the names of the started services and
    joining it raises [TypeError]: no run logs the started services.  On the
    chain, with every report a success, the agents launched are [db], [api]
    and [web], and the line is not logged. *)
Theorem started_names_not_reported :
  (∀ services exclude schedule line,
     start_services (A:=Agent) services exclude schedule ≠ Some (Ok line)) ∧
  (∃ self,
     start_all (A:=Agent) [[Started "db"]; [Started "api"]]
               (loaded (load Examples.chain []).1)
       = Some (self, PyNone) ∧
     failed self = false ∧ launched self = ["db"; "api"; "web"]) ∧
  start_services (A:=Agent) Examples.chain []
      [[Started "db"]; [Started "api"]]
    = Some (Raise TypeError).
Proof.
  split_and!.
  - apply start_services_no_line.
  - eexists. split_and!; vm_compute; reflexivity.
  - vm_compute. reflexivity.
Qed.

(** * Evaluations *)

(** A plain two-cycle is found from its first member. *)
Example load_two_cycle :
  (load [Examples.svc "A" ["B"]; Examples.svc "B" ["A"]] []).2
    = Raise CircularDependency.
Proof. reflexivity. Qed.

(** The chain loads, in the order of its declaration. *)
Example load_chain :
  (PyDict.keys (load Examples.chain []).1, (load Examples.chain []).2)
    = (["db"; "api"; "web"], Ok ()).
Proof. reflexivity. Qed.

(** On the padded cycle the walk from [A] returns with its counter at the
    number of definitions; so does the walk from [B]. *)
Example walk_padded_cycle :
  go_up_dependencies (load Examples.padded_cycle []).1 "A" 6
    (Examples.svc "A" ["X"; "B"]) 0 = (6, Ok ()) ∧
  go_up_dependencies (load Examples.padded_cycle []).1 "B" 6
    (Examples.svc "B" ["X"; "A"]) 0 = (6, Ok ()).
Proof. split; reflexivity. Qed.

(** On the cycle with the leaf the walk from [A] ends in the call on [B],
    with the counter at the number of definitions. *)
Example walk_leaf_cycle :
  go_up_dependencies (load Examples.leaf_cycle []).1 "A" 3
    (Examples.svc "A" ["X"; "B"]) 0 = (3, Ok ()).
Proof. reflexivity. Qed.

(** With the edge of the cycle listed first in both members, the cycle is
    found. *)
Example load_cycle_edge_first :
  (load [Examples.svc "A" ["B"; "X"]; Examples.svc "B" ["A"; "X"];
         Examples.svc "X" []] []).2
    = Raise CircularDependency.
Proof. reflexivity. Qed.

(** On the chain [db] is started at once; its completion starts [api] and
    leaves [web] waiting. *)
Example chain_db_started :
  launched (Examples.started Examples.chain) = ["db"] ∧
  waiting_of (Examples.started Examples.chain) = ["api"; "web"] ∧
  launched (run [Started "db"] (Examples.started Examples.chain))
    = ["db"; "api"] ∧
  waiting_of (run [Started "db"] (Examples.started Examples.chain))
    = ["web"].
Proof. split_and!; vm_compute; reflexivity. Qed.

(** A completion reported twice raises [KeyError] the second time. *)
Example start_next_twice :
  match start_next "db" (run [Started "db"] (Examples.started Examples.chain))
  with
  | Raise e => e = KeyError "db"
  | Ok _ => False
  end.
Proof. vm_compute. reflexivity. Qed.

(** * More on the registry *)

Lemma scan_services_Ok exclude services reg cnt reg' cnt' :
  scan_services exclude services reg cnt = (reg', Ok cnt') →
  no_excluded_dependency exclude services.
Proof.
  revert reg cnt. induction services as [|s0 services IH]; intros reg cnt;
    cbn [scan_services].
  { intros _ s d Hs. by apply elem_of_nil in Hs. }
  destruct (decide (name s0 ∉ exclude)) as [Hkept|Hdropped].
  - destruct (filter _ (dependencies s0)) eqn:Hfilter; [|done].
    intros Hscan s d [->|Hs]%elem_of_cons.
    + intros _. apply (proj1 (excluded_deps_nil exclude s0) Hfilter).
    + by apply (IH _ _ Hscan).
  - intros Hscan s d [->|Hs]%elem_of_cons; [done|].
    by apply (IH _ _ Hscan).
Qed.

Lemma scan_services_Raise exclude services reg cnt reg' e :
  scan_services exclude services reg cnt = (reg', Raise e) →
  ∃ d n, e = ExcludedDependency d n.
Proof.
  revert reg cnt. induction services as [|s0 services IH]; intros reg cnt;
    cbn [scan_services]; [done|].
  destruct (decide (name s0 ∉ exclude)); [|apply IH].
  destruct (filter _ (dependencies s0)); [apply IH|].
  intros [= _ <-]. by eexists _, _.
Qed.

Section kept_facts.
Variable exclude : list string.
Variable services : list Service.

Lemma keys_kept :
  PyDict.keys (kept exclude services)
    = name <$> filter (λ s, name s ∉ exclude) services.
Proof. unfold PyDict.keys, kept. by rewrite <- list_fmap_compose. Qed.

Lemma elem_of_kept k s :
  (k, s) ∈ kept exclude services ↔
  k = name s ∧ (name s ∉ exclude) ∧ s ∈ services.
Proof.
  unfold kept. rewrite list_elem_of_fmap. split.
  - intros (s' & [= -> ->] & ?%list_elem_of_filter). tauto.
  - intros (-> & ? & ?). exists s. split; [done|].
    by apply list_elem_of_filter.
Qed.

Lemma NoDup_keys_kept :
  NoDup (name <$> services) → NoDup (PyDict.keys (kept exclude services)).
Proof.
  rewrite keys_kept. intros Hnd.
  eapply sublist_NoDup; [exact Hnd|apply fmap_sublist, sublist_filter].
Qed.

Lemma get_kept k s :
  NoDup (name <$> services) →
  PyDict.get k (kept exclude services) = Some s ↔
  k = name s ∧ (name s ∉ exclude) ∧ s ∈ services.
Proof.
  intros Hnd. rewrite <- elem_of_kept. split.
  - apply get_elem_of.
  - apply elem_of_get. by apply NoDup_keys_kept.
Qed.
End kept_facts.

(** When the scan raises nothing and no name is declared twice, the registry
    left by the scan of a fresh collection is [kept]. *)
Lemma scan_services_kept exclude services :
  no_excluded_dependency exclude services → NoDup (name <$> services) →
  scan_services exclude services [] []
    = (kept exclude services, Ok (count_names [] services)).
Proof.
  intros Hno Hnd. rewrite (scan_services_passes exclude services [] [] Hno).
  by rewrite (register_all_NoDup exclude services []).
Qed.

Lemma resolve_passes reg deps :
  (∀ d, d ∈ deps → d ∈ PyDict.keys reg) → resolve reg deps = Ok deps.
Proof.
  induction deps as [|d deps IH]; intros Hall; simpl; [done|].
  destruct (proj2 (get_Some_keys d reg)) as [s ->]; [apply Hall; left|].
  rewrite IH; [done|]. intros d' ?. apply Hall. by right.
Qed.

Lemma resolve_all_passes todo reg :
  (∀ k s, (k, s) ∈ todo → PyDict.get k reg = Some s) →
  (∀ k s d, (k, s) ∈ todo → d ∈ dependencies s → d ∈ PyDict.keys reg) →
  resolve_all todo reg = (reg, Ok ()).
Proof.
  induction todo as [|[k0 s0] todo IH]; intros Htodo Hdeps; [done|].
  cbn [resolve_all]. rewrite resolve_passes.
  - assert (PyDict.set k0
              {| name := name s0; image := image s0;
                 dependencies := dependencies s0 |} reg = reg) as ->.
    { apply set_same. destruct s0. apply (Htodo k0). left. }
    apply IH.
    + intros k s ?. apply Htodo. by right.
    + intros k s d ?. apply (Hdeps k s d). by right.
  - intros d. apply (Hdeps k0 s0 d). left.
Qed.

(** A [load] that comes to the cycle check has found distinct names, no
    excluded dependency and every dependency among the kept definitions, and
    its registry is [kept]. *)
Lemma load_checked services exclude reg r :
  load services exclude = (reg, r) →
  r = Ok () ∨ r = Raise CircularDependency →
  services ≠ [] ∧
  NoDup (name <$> services) ∧
  no_excluded_dependency exclude services ∧
  reg = kept exclude services ∧
  (∀ k s d, (k, s) ∈ reg → d ∈ dependencies s → d ∈ PyDict.keys reg) ∧
  check_circular_dependencies reg = r.
Proof.
  unfold load, load_definitions. intros Hload Hr.
  destruct services as [|s0 services0] eqn:Hservices.
  { injection Hload as _ <-. by destruct Hr. }
  rewrite <- Hservices in *.
  destruct (scan_services exclude services [] []) as [reg0 [cnt|e]] eqn:Hscan.
  2:{ apply scan_services_Raise in Hscan as (d & n & ->).
      injection Hload as _ <-. by destruct Hr. }
  pose proof (scan_services_Ok _ _ _ _ _ _ Hscan) as Hno.
  rewrite (scan_services_passes exclude services [] [] Hno) in Hscan.
  injection Hscan as <- <-.
  destruct (multiples (count_names [] services)) eqn:Hm.
  2:{ injection Hload as _ <-. by destruct Hr. }
  apply multiples_nil_NoDup in Hm as Hnd.
  rewrite (register_all_NoDup exclude services []) in Hload by done.
  rewrite app_nil_l in Hload. fold (kept exclude services) in Hload.
  destruct (resolve_all (kept exclude services) (kept exclude services))
    as [reg1 [[]|e]] eqn:Hres.
  2:{ destruct (resolve_all_Raise _ _ _ (f_equal snd Hres)) as [k ->].
      injection Hload as _ <-. by destruct Hr. }
  apply resolve_all_Ok in Hres as [-> Hdeps].
  2:{ intros k s. apply elem_of_get. by apply NoDup_keys_kept. }
  injection Hload as <- <-. split_and!; try done. by rewrite Hservices.
Qed.

(** ** The cycle check raises for cycles only *)

Section walk_sound.
Variable all_by_name : dict Service.
Variable start : string.
Hypothesis named : ∀ k s, PyDict.get k all_by_name = Some s → name s = k.

Lemma deref_name ref : name (deref all_by_name ref) = ref.
Proof.
  unfold deref. destruct (PyDict.get ref all_by_name) eqn:Hget; simpl;
    [by apply named|done].
Qed.

Lemma deref_depends_on x d :
  d ∈ dependencies (deref all_by_name x) → depends_on all_by_name x d.
Proof.
  unfold deref, depends_on.
  destruct (PyDict.get x all_by_name) eqn:Hget; simpl; [by eauto|].
  by intros ?%elem_of_nil.
Qed.

Lemma for_dependency_sound fuel x deps count c :
  (∀ y c0 c1,
     go_up_dependencies all_by_name start fuel (deref all_by_name y) c0
       = (c1, Raise CircularDependency) →
     tc (depends_on all_by_name) y start) →
  (∀ d, d ∈ deps → depends_on all_by_name x d) →
  for_dependency all_by_name start fuel deps count
    = (c, Raise CircularDependency) →
  tc (depends_on all_by_name) x start.
Proof.
  intros Hcall. revert count.
  induction deps as [|ref deps IH]; intros count Hdeps;
    cbn [for_dependency]; [done|].
  assert (depends_on all_by_name x ref) as Href by (apply Hdeps; left).
  assert (∀ d, d ∈ deps → depends_on all_by_name x d) as Hrest
    by (intros d ?; apply Hdeps; by right).
  rewrite deref_name. case_decide as Hstart.
  { intros _. subst ref. by apply tc_once. }
  case_decide; [done|].
  destruct (go_up_dependencies _ _ fuel _ count) as [c' [[]|e]] eqn:Hgo.
  - by apply IH.
  - intros [= -> ->]. apply tc_l with ref; [done|]. by eapply Hcall.
Qed.

Lemma go_up_dependencies_sound fuel x count c :
  go_up_dependencies all_by_name start fuel (deref all_by_name x) count
    = (c, Raise CircularDependency) →
  tc (depends_on all_by_name) x start.
Proof.
  revert x count c. induction fuel as [|fuel IH]; intros x count c; [done|].
  rewrite go_up_dependencies_S. apply for_dependency_sound.
  - intros y c0 c1. apply IH.
  - apply deref_depends_on.
Qed.
End walk_sound.

Lemma check_from_sound all_by_name with_dependencies :
  (∀ k s, PyDict.get k all_by_name = Some s → name s = k) →
  (∀ s, s ∈ with_dependencies → deref all_by_name (name s) = s) →
  check_from all_by_name with_dependencies = Raise CircularDependency →
  cyclic all_by_name.
Proof.
  intros Hnamed. induction with_dependencies as [|s rest IH];
    intros Hderef; cbn [check_from]; [done|].
  destruct (go_up_dependencies _ _ _ s 0) as [c [[]|e]] eqn:Hgo.
  - apply IH. intros s' ?. apply Hderef. by right.
  - intros [= ->]. exists (name s).
    rewrite <- (Hderef s) in Hgo at 2 by left.
    by eapply go_up_dependencies_sound.
Qed.

Lemma check_circular_dependencies_sound all_by_name :
  NoDup (PyDict.keys all_by_name) →
  (∀ k s, (k, s) ∈ all_by_name → name s = k) →
  check_circular_dependencies all_by_name = Raise CircularDependency →
  cyclic all_by_name.
Proof.
  intros Hnd Hnamed. apply check_from_sound.
  - intros k s ?%get_elem_of. by apply Hnamed.
  - intros s [_ Hin]%list_elem_of_filter.
    apply list_elem_of_fmap in Hin as ([k s'] & -> & Hin). simpl.
    unfold deref. rewrite (Hnamed _ _ Hin).
    by rewrite (elem_of_get _ _ _ Hnd Hin).
Qed.


Lemma load_passes services exclude :
  services ≠ [] → NoDup (name <$> services) →
  (∀ s d, s ∈ services → name s ∉ exclude → d ∈ dependencies s →
          d ∈ PyDict.keys (kept exclude services)) →
  ¬ cyclic (kept exclude services) →
  load services exclude = (kept exclude services, Ok ()).
Proof.
  intros Hne Hnd Hclosed Hacyclic.
  assert (no_excluded_dependency exclude services) as Hno.
  { intros s d Hs Hname Hd. specialize (Hclosed s d Hs Hname Hd).
    rewrite keys_kept in Hclosed.
    apply list_elem_of_fmap in Hclosed as (s' & -> & [? _]%list_elem_of_filter).
    done. }
  unfold load, load_definitions. destruct services as [|s0 services0] eqn:Hs;
    [done|]. rewrite <- Hs in *.
  rewrite (scan_services_kept exclude services Hno Hnd).
  rewrite (proj2 (multiples_nil_NoDup services) Hnd).
  rewrite resolve_all_passes.
  - destruct (check_circular_dependencies _) as [[]|e] eqn:Hcheck; [done|].
    pose proof (check_circular_dependencies_Raise _ _ Hcheck) as ->.
    destruct Hacyclic. apply check_circular_dependencies_sound; [| |done].
    + by apply NoDup_keys_kept.
    + by intros k s (-> & _)%elem_of_kept.
  - intros k s. apply elem_of_get. by apply NoDup_keys_kept.
  - intros k s d (-> & ? & ?)%elem_of_kept. by apply Hclosed.
Qed.

(** X1: a [load] that returns has found distinct names, no dependency on an
    excluded name and every dependency among the kept definitions; the
    registry it leaves holds the kept definitions, each under its own name,
    in the order of declaration. *)
Theorem load_Ok_registry services exclude reg :
  load services exclude = (reg, Ok ()) →
  reg = kept exclude services ∧
  services ≠ [] ∧
  NoDup (name <$> services) ∧
  no_excluded_dependency exclude services ∧
  (∀ k s d, PyDict.get k reg = Some s → d ∈ dependencies s →
            is_Some (PyDict.get d reg)).
Proof.
  intros Hload.
  destruct (load_checked _ _ _ _ Hload) as (? & ? & ? & -> & Hdeps & _);
    [by left|].
  split_and!; try done.
  intros k s d Hget%get_elem_of Hd. apply get_Some_keys. by eapply Hdeps.
Qed.

Lemma load_Ok_registry_witness :
  (load Examples.chain []).1 = kept [] Examples.chain ∧
  Examples.chain ≠ [] ∧
  NoDup (name <$> Examples.chain) ∧
  no_excluded_dependency [] Examples.chain ∧
  (∀ k s d, PyDict.get k (load Examples.chain []).1 = Some s →
            d ∈ dependencies s →
            is_Some (PyDict.get d (load Examples.chain []).1)).
Proof.
  apply (load_Ok_registry Examples.chain [] (load Examples.chain []).1).
  reflexivity.
Defined.

(** X2: [load] raises [CircularDependency] only when the registry has a
    cycle. *)
Theorem circular_dependency_is_cycle services exclude reg :
  load services exclude = (reg, Raise CircularDependency) → cyclic reg.
Proof.
  intros Hload.
  destruct (load_checked _ _ _ _ Hload) as (_ & Hnd & _ & -> & _ & Hcheck);
    [by right|].
  apply check_circular_dependencies_sound; [| |done].
  - by apply NoDup_keys_kept.
  - by intros k s (-> & _)%elem_of_kept.
Qed.

Lemma circular_dependency_is_cycle_witness :
  cyclic (load [Examples.svc "A" ["B"]; Examples.svc "B" ["A"]] []).1.
Proof.
  apply (circular_dependency_is_cycle
           [Examples.svc "A" ["B"]; Examples.svc "B" ["A"]] []).
  reflexivity.
Defined.



(** X6: when every definition is excluded and the names are distinct,
    [load] returns with an empty registry: "No services defined" is raised
    for an empty list of definitions only. *)
Theorem load_all_excluded services exclude :
  services ≠ [] → NoDup (name <$> services) →
  (∀ s, s ∈ services → name s ∈ exclude) →
  load services exclude = ([], Ok ()).
Proof.
  intros Hne Hnd Hall.
  assert (kept exclude services = []) as Hkept.
  { unfold kept. replace (filter _ services) with (@nil Service); [done|].
    symmetry. clear Hne Hnd. induction services as [|s l IH]; [done|].
    rewrite filter_cons_False.
    - apply IH. intros s' ?. apply Hall. by right.
    - intros Hs. apply Hs, Hall. left. }
  rewrite <- Hkept. apply load_passes; try done.
  - intros s d Hs Hname. destruct Hname. by apply Hall.
  - rewrite Hkept. intros [a Hcycle].
    assert (∀ x y, tc (depends_on []) x y → False) as Hnone.
    { induction 1 as [x y (s & Hget & _)|]; done. }
    by eapply Hnone.
Qed.

Lemma load_all_excluded_witness :
  load [Examples.svc "db" []; Examples.svc "api" ["db"]] ["db"; "api"]
    = ([], Ok ()).
Proof.
  apply (load_all_excluded
           [Examples.svc "db" []; Examples.svc "api" ["db"]] ["db"; "api"]).
  - done.
  - simpl. repeat constructor.
    + by intros [=]%list_elem_of_singleton.
    + apply not_elem_of_nil.
  - intros s Hs.
    apply elem_of_cons in Hs as [->|Hs]; [left|].
    apply list_elem_of_singleton in Hs as ->. right. left.
Defined.

(** X14: after a [load] that returns, the length of the collection is the
    number of definitions that are not excluded. *)
Theorem len_after_load {A : Type} services exclude reg :
  load services exclude = (reg, Ok ()) →
  __len__ (A:=A) (loaded reg)
    = length (filter (λ s, name s ∉ exclude) services).
Proof.
  intros Hload.
  destruct (load_checked _ _ _ _ Hload) as (_ & _ & _ & -> & _); [by left|].
  unfold __len__, kept. simpl. by rewrite length_fmap.
Qed.

Lemma len_after_load_witness :
  __len__ (A:=Agent)
    (loaded (load [Examples.svc "db" []; Examples.svc "api" []] ["api"]).1)
    = length (filter (λ s, name s ∉ ["api"])
                [Examples.svc "db" []; Examples.svc "api" []]).
Proof.
  apply (len_after_load (A:=Agent)
           [Examples.svc "db" []; Examples.svc "api" []] ["api"]).
  reflexivity.
Defined.

(** ** Cycles that the check does find *)

Section walk_complete.
Variable all_by_name : dict Service.
Variable start : string.
Variable origin : Service.
Hypothesis origin_registered : PyDict.get start all_by_name = Some origin.
Hypothesis origin_named : name origin = start.



End walk_complete.




(** ** The excluded dependency that is reported *)

Lemma scan_services_app exclude pre rest reg cnt :
  no_excluded_dependency exclude pre →
  scan_services exclude (pre ++ rest) reg cnt
    = scan_services exclude rest (foldl (register exclude) reg pre)
        (count_names cnt pre).
Proof.
  revert reg cnt. induction pre as [|s0 pre IH]; intros reg cnt Hno; [done|].
  assert (no_excluded_dependency exclude pre) as Hpre.
  { intros s d Hs. apply Hno. by right. }
  cbn [app scan_services foldl count_names]. unfold register at 2.
  destruct (decide (name s0 ∉ exclude)) as [Hkept|Hdropped]; [|by apply IH].
  destruct (filter _ (dependencies s0)) as [|dep deps] eqn:Hfilter;
    [by apply IH|].
  assert (dep ∈ filter (λ dep, dep ∈ exclude) (dependencies s0))
    as [? ?]%list_elem_of_filter by (rewrite Hfilter; left).
  destruct (Hno s0 dep); try done. left.
Qed.

(** X5: the definitions are scanned in the order of declaration, and the
    error names the first kept definition that has an excluded dependency
    and the first such dependency in its list; the registry then holds the
    kept definitions declared before it, and that definition. *)
Theorem excluded_dependency_first
    pre s post exclude all_by_name dep deps :
  no_excluded_dependency exclude pre →
  name s ∉ exclude →
  filter (λ d, d ∈ exclude) (dependencies s) = dep :: deps →
  load_definitions (pre ++ s :: post) exclude all_by_name
    = (PyDict.set (name s) s (foldl (register exclude) all_by_name pre),
       Raise (ExcludedDependency dep (name s))).
Proof.
  intros Hno Hname Hfilter. unfold load_definitions.
  destruct (pre ++ s :: post) as [|s0 l] eqn:Happ.
  { by destruct pre. }
  rewrite <- Happ, scan_services_app by done. cbn [scan_services].
  by rewrite decide_True, Hfilter by done.
Qed.

Lemma excluded_dependency_first_witness :
  load_definitions
    ([Examples.svc "db" []]
       ++ Examples.svc "web" ["db"; "cache"; "queue"]
       :: [Examples.svc "api" ["queue"]])
    ["cache"; "queue"] []
  = (PyDict.set "web" (Examples.svc "web" ["db"; "cache"; "queue"])
       (foldl (register ["cache"; "queue"]) [] [Examples.svc "db" []]),
     Raise (ExcludedDependency "cache" "web")).
Proof.
  apply (excluded_dependency_first
           [Examples.svc "db" []]
           (Examples.svc "web" ["db"; "cache"; "queue"])
           [Examples.svc "api" ["queue"]]
           ["cache"; "queue"] [] "cache" ["queue"]).
  - intros s d Hs _ Hd. apply list_elem_of_singleton in Hs as ->.
    by apply elem_of_nil in Hd.
  - simpl. intros Hin. apply elem_of_cons in Hin as [[=]|Hin].
    by apply list_elem_of_singleton in Hin.
  - reflexivity.
Defined.

(** * More on the run coordinator *)

Section coordinator_more.
Context {A : Type} `{ServiceAgent A}.
Implicit Types (store : gmap string A) (context : RunningContext A)
  (self : ServiceCollection A).

Lemma create_agents_fmap (services_by_name : dict Service) :
  NoDup (PyDict.keys services_by_name) →
  create_agents services_by_name
    = (λ item, (item.1, new_agent item.2)) <$> services_by_name.
Proof.
  unfold create_agents.
  assert (∀ d : dict A,
            NoDup (PyDict.keys d ++ PyDict.keys services_by_name) →
            foldl (λ d item, PyDict.set item.1 (new_agent item.2) d)
                  d services_by_name
              = d ++ ((λ item, (item.1, new_agent item.2))
                        <$> services_by_name)) as Hfold.
  { induction services_by_name as [|[k s] items IH]; intros d Hnd.
    { by rewrite app_nil_r. }
    rewrite keys_cons in Hnd. cbn [foldl fst snd].
    assert (k ∉ PyDict.keys d) as Hfresh.
    { apply NoDup_app in Hnd as (_ & Hdisj & _). intros Hin.
      apply (Hdisj _ Hin). left. }
    rewrite set_fresh by done. rewrite IH.
    - by rewrite <- app_assoc.
    - rewrite keys_app, <- app_assoc. done. }
  intros Hnd. by rewrite Hfold.
Qed.

Lemma list_to_map_get (d : dict A) k :
  (list_to_map d : gmap string A) !! k = PyDict.get k d.
Proof.
  induction d as [|[k' a] d IH]; [done|].
  rewrite list_to_map_cons, lookup_insert. simpl.
  destruct (decide (k = k')) as [->|Hne].
  - by rewrite decide_True.
  - by rewrite decide_False.
Qed.

Lemma get_fmap_new_agent (services_by_name : dict Service) k :
  PyDict.get k ((λ item, (item.1, new_agent item.2)) <$> services_by_name)
    = new_agent <$> PyDict.get k services_by_name.
Proof.
  induction services_by_name as [|[k' s] items IH]; [done|]. simpl.
  by destruct (decide (k = k')).
Qed.

Lemma keys_filter_fmap (P : A → Prop) `{!∀ a, Decision (P a)}
    (services_by_name : dict Service) :
  PyDict.keys
    (filter (λ item, P item.2)
       ((λ item, (item.1, new_agent item.2)) <$> services_by_name))
    = PyDict.keys
        (filter (λ item, P (new_agent item.2)) services_by_name).
Proof.
  induction services_by_name as [|[k s] items IH]; [done|].
  rewrite fmap_cons. destruct (decide (P (new_agent s))).
  - rewrite (filter_cons_True (λ item : string * A, P item.2)) by done.
    rewrite (filter_cons_True
               (λ item : string * Service, P (new_agent item.2))) by done.
    by rewrite !keys_cons, IH.
  - rewrite (filter_cons_False (λ item : string * A, P item.2)) by done.
    by rewrite (filter_cons_False
                  (λ item : string * Service, P (new_agent item.2))).
Qed.

(** X7: the context built for a registry has one agent for each definition,
    under the key of the definition; the agents that can start when created
    are those without dependencies for the run, the others wait, and every
    key is in one of the two. *)
Theorem new_context_partition (services_by_name : dict Service) :
  NoDup (PyDict.keys services_by_name) →
  service_agents (new_context services_by_name)
    = PyDict.keys services_by_name ∧
  (∀ k, agents (new_context services_by_name) !! k
        = new_agent <$> PyDict.get k services_by_name) ∧
  without_dependencies (new_context services_by_name)
    = PyDict.keys (filter (λ item, can_start (new_agent item.2) = true)
                          services_by_name) ∧
  waiting_agents (new_context services_by_name)
    = PyDict.keys (filter (λ item, can_start (new_agent item.2) ≠ true)
                          services_by_name) ∧
  without_dependencies (new_context services_by_name)
    ++ waiting_agents (new_context services_by_name)
    ≡ₚ PyDict.keys services_by_name.
Proof.
  intros Hnd. unfold new_context.
  cbn [service_agents agents without_dependencies waiting_agents].
  rewrite (create_agents_fmap _ Hnd).
  split_and!.
  - unfold PyDict.keys. rewrite <- list_fmap_compose. done.
  - intros k. by rewrite list_to_map_get, get_fmap_new_agent.
  - exact (keys_filter_fmap (λ a, can_start a = true) services_by_name).
  - exact (keys_filter_fmap (λ a, can_start a ≠ true) services_by_name).
  - cbn. unfold PyDict.keys. rewrite <- fmap_app.
    rewrite (filter_app_complement
               (λ item : string * A, can_start item.2 = true)).
    by rewrite <- list_fmap_compose.
Qed.

(** X8: a completion is processed once: after [start_next] has returned
    for a name, a second [start_next] for that name raises [KeyError]. *)
Theorem start_next_once started self self' :
  start_next started self = Ok self' →
  start_next started self' = Raise (KeyError started).
Proof.
  unfold start_next.
  destruct (running_context self) as [context|]; [|done].
  unfold service_started.
  destruct (decide (started ∈ service_agents context)); [|done].
  destruct (notify _ _ _ _) as [store startable]. intros [= <-]. cbn.
  rewrite decide_False; [done|]. unfold pop.
  by intros [? _]%list_elem_of_filter.
Qed.

Lemma start_invariant_start registry :
  start_invariant (start_without_dependencies (loaded registry)).
Proof.
  split; [apply launch_invariant_start|].
  pose proof (create_agents_NoDup registry) as Hnd.
  unfold waiting_of, store_of, can_start_at. cbn.
  split; intros n (item & -> & [Hitem Hin]%list_elem_of_filter)%list_elem_of_fmap;
    destruct item as [k a]; cbn [fst snd] in *;
    change (foldl _ [] registry) with (create_agents registry) in *;
    by rewrite list_to_map_get, (elem_of_get _ _ _ Hnd Hin).
Qed.

Lemma start_invariant_deliver self r :
  start_invariant self → start_invariant (deliver self r).
Proof.
  intros (Hinv & Hlaunched & Hwaiting).
  split; [by apply launch_invariant_deliver|].
  destruct r as [started|failed_service]; [|done].
  unfold launch_invariant, waiting_of, store_of in *.
  cbn [deliver]. unfold start_next.
  destruct (running_context self) as [context|] eqn:Hcontext;
    [|by rewrite Hcontext].
  destruct (decide (started ∈ service_agents context)) as [Hin|Hin].
  2:{ unfold service_started. rewrite decide_False by done.
      by rewrite Hcontext. }
  assert (NoDup (waiting_agents context)) as Hnd
    by (by apply NoDup_app in Hinv as (_ & _ & ?)).
  destruct (service_started_Ok started context Hnd Hin)
    as (store' & -> & Hlookup).
  cbn. split.
  - intros n [Hn|[? _]%list_elem_of_filter]%elem_of_app; [|done].
    apply NoDup_app in Hinv as (_ & Hdisj & _).
    unfold can_start_at. rewrite Hlookup, decide_False by by apply Hdisj.
    by apply Hlaunched.
  - by intros n [? _]%list_elem_of_filter.
Qed.

Lemma start_invariant_run reports self :
  start_invariant self → start_invariant (run reports self).
Proof.
  revert self. induction reports as [|r reports IH]; intros self Hinv;
    [done|].
  apply IH. by apply start_invariant_deliver.
Qed.

(** X11: in a run, whatever is reported, every agent that has been launched
    can start, and every agent that waits cannot: an agent is launched when
    [can_start] holds of it and not before, and no notification reaches it
    afterwards. *)
Theorem launched_can_start registry reports :
  (∀ n, n ∈ launched (run reports
                        (start_without_dependencies (loaded registry))) →
        can_start_at
          (store_of (run reports
                       (start_without_dependencies (loaded registry)))) n
          = true) ∧
  (∀ n, n ∈ waiting_of (run reports
                          (start_without_dependencies (loaded registry))) →
        can_start_at
          (store_of (run reports
                       (start_without_dependencies (loaded registry)))) n
          ≠ true).
Proof.
  destruct (start_invariant_run reports _ (start_invariant_start registry))
    as (_ & ? & ?). done.
Qed.
End coordinator_more.

Lemma new_context_partition_witness :
  service_agents (new_context (A:=Agent) (kept [] Examples.chain))
    = PyDict.keys (kept [] Examples.chain) ∧
  (∀ k, agents (new_context (A:=Agent) (kept [] Examples.chain)) !! k
        = new_agent <$> PyDict.get k (kept [] Examples.chain)) ∧
  without_dependencies (new_context (A:=Agent) (kept [] Examples.chain))
    = PyDict.keys
        (filter (λ item, can_start (A:=Agent) (new_agent item.2) = true)
                (kept [] Examples.chain)) ∧
  waiting_agents (new_context (A:=Agent) (kept [] Examples.chain))
    = PyDict.keys
        (filter (λ item, can_start (A:=Agent) (new_agent item.2) ≠ true)
                (kept [] Examples.chain)) ∧
  without_dependencies (new_context (A:=Agent) (kept [] Examples.chain))
    ++ waiting_agents (new_context (A:=Agent) (kept [] Examples.chain))
    ≡ₚ PyDict.keys (kept [] Examples.chain).
Proof.
  apply (new_context_partition (A:=Agent) (kept [] Examples.chain)).
  vm_compute. repeat constructor.
  - intros Hin. apply elem_of_cons in Hin as [[=]|Hin].
    by apply list_elem_of_singleton in Hin.
  - by intros [=]%list_elem_of_singleton.
  - apply not_elem_of_nil.
Defined.

Lemma start_next_once_witness :
  start_next "db" (run [Started "db"] (Examples.started Examples.chain))
    = Raise (KeyError "db").
Proof.
  apply (start_next_once "db" (Examples.started Examples.chain)).
  vm_compute. reflexivity.
Defined.

Section start_all_facts.
Context {A : Type} `{ServiceAgent A}.
Implicit Types (self : ServiceCollection A).









(** X12: the reports of a run never change the registry, only add to the
    agents launched, and make no agent wait that did not wait before. *)
Theorem run_monotone reports self :
  all_by_name (run reports self) = all_by_name self ∧
  launched self `prefix_of` launched (run reports self) ∧
  (∀ n, n ∈ waiting_of (run reports self) → n ∈ waiting_of self).
Proof.
  revert self. induction reports as [|r reports IH]; intros self; [done|].
  change (run (r :: reports) self) with (run reports (deliver self r)).
  destruct (IH (deliver self r)) as (-> & Hprefix & Hwaiting).
  assert (all_by_name (deliver self r) = all_by_name self ∧
          launched self `prefix_of` launched (deliver self r) ∧
          (∀ n, n ∈ waiting_of (deliver self r) → n ∈ waiting_of self))
    as (-> & Hprefix' & Hwaiting').
  { destruct r as [started|failed_service]; [|done].
    unfold waiting_of. cbn [deliver]. unfold start_next.
    destruct (running_context self) as [context|] eqn:Hcontext;
      [|by rewrite Hcontext].
    unfold service_started.
    destruct (decide (started ∈ service_agents context));
      [|by rewrite Hcontext].
    destruct (notify _ _ _ _) as [store startable]. cbn.
    split_and!; [done|by apply prefix_app_r|].
    intros n. rewrite foldl_pop. by intros [_ ?]%list_elem_of_filter. }
  split_and!; [done|by etrans|auto].
Qed.
End start_all_facts.


(** * [ServiceMeta] *)


